(** * Tic-Tac-Toe: board, game controller and computer opponent

    A shallow embedding of [script.js] (Gameboard, Player, the minimax
    [AI] module and [GameController]) and of the heuristic [AI] module
    of the sibling variant of the script, followed by the properties
    their specification states about them.

    Conventions of the embedding:
    - the board is a JavaScript array of strings, here a [list string];
      the array read [board[i]] is the list lookup [board !! i], whose
      [None] is JavaScript's [undefined];
    - the empty cell is the empty string, as in the script;
    - scores are JavaScript numbers that only ever hold small integers
      or one of the two infinities, here [Score];
    - module-level [let] variables of [GameController] together with the
      array owned by [Gameboard] form the record [GameState], threaded
      explicitly through every operation;
    - the recursion of the search is bounded by a number of nested
      calls, [AI.minimax_fuel]; the functions as called, [AI.minimax] and
      [AI.getBestMove], run it with a bound computed from the board,
      which [minimax_returns] shows is never reached unless both markers
      are the empty string, the one case in which the script can
      recurse without end;
    - a call either returns or throws: [outcome]. *)

From Stdlib Require Import ZArith String List Bool Lia.
From stdpp Require Import base list.
Import ListNotations.

Local Open Scope string_scope.
Local Open Scope Z_scope.

(** ** Values *)

(** A JavaScript number as the search uses it. *)
Inductive Score : Type :=
| NegInfinity
| Num (z : Z)
| PosInfinity.

(** [a > b] on numbers. *)
Definition score_gt (a b : Score) : bool :=
  match a, b with
  | NegInfinity, _ => false
  | _, PosInfinity => false
  | Num x, Num y => y <? x
  | Num _, NegInfinity => true
  | PosInfinity, _ => true
  end.

(** [Math.max(a, b)] and [Math.min(a, b)]. *)
Definition score_max (a b : Score) : Score := if score_gt b a then b else a.
Definition score_min (a b : Score) : Score := if score_gt a b then b else a.

(** The two exceptions the modelled code can raise. *)
Inductive JsError : Type :=
| TypeError   (* property read on null *)
| RangeError. (* call stack exhausted by unbounded recursion *)

Inductive outcome (A : Type) : Type :=
| Returned (a : A)
| Threw (e : JsError).
Arguments Returned {A} a.
Arguments Threw {A} e.

(** Sequencing of calls: an exception of the first ends the second. *)
#[global] Instance outcome_bind : MBind outcome :=
  fun A B (k : A -> outcome B) (o : outcome A) =>
    match o with
    | Returned a => k a
    | Threw e => Threw e
    end.

Abbreviation Board := (list string).

(** [board[i] === v] for a string [v]: [undefined] equals no string. *)
Definition cellIs (board : Board) (i : nat) (v : string) : bool :=
  match board !! i with
  | Some c => String.eqb c v
  | None => false
  end.

(** [for (let i = 0; i < 9; i++) body], where [body] may fail to
    produce a value; the loop state is [A]. *)
Definition for9_step {A : Type} (body : A -> nat -> option A)
           (acc : option A) (i : nat) : option A :=
  match acc with
  | Some a => body a i
  | None => None
  end.

Definition for9 {A : Type} (body : A -> nat -> option A) (init : A) : option A :=
  fold_left (for9_step body) (seq 0 9) (Some init).

(** The eight winning triples, in the order the script lists them. *)
Definition winConditions : list (list nat) :=
  [ [0; 1; 2]; [3; 4; 5]; [6; 7; 8];
    [0; 3; 6]; [1; 4; 7]; [2; 5; 8];
    [0; 4; 8]; [2; 4; 6] ]%nat.

(** ** Gameboard *)

Module Gameboard.

(** The array the module is created with. *)
Definition initial : Board := [""; ""; ""; ""; ""; ""; ""; ""; ""].

(** What [getCell] can return: a cell, [undefined], or the [null]
    sentinel for an index outside [0..8]. *)
Inductive CellValue : Type :=
| Cell (s : string)
| Undefined
| Null.

Definition setCell (index : Z) (marker : string) (board : Board) : Board * bool :=
  if (0 <=? index) && (index <? 9) && cellIs board (Z.to_nat index) "" then
    (<[Z.to_nat index := marker]> board, true)
  else (board, false).

Definition getCell (index : Z) (board : Board) : CellValue :=
  if (0 <=? index) && (index <? 9) then
    match board !! Z.to_nat index with
    | Some c => Cell c
    | None => Undefined
    end
  else Null.

(** [board[i] = v] where the array has at least [i] cells: a cell that
    exists is overwritten, an assignment just past the end appends. *)
Definition assign (i : nat) (v : string) (board : Board) : Board :=
  if (i <? length board)%nat then <[i := v]> board else board ++ [v].

(** The loop visits the indices in ascending order, so it reaches [i]
    only when the array has at least [i] cells. *)
Definition reset (board : Board) : Board :=
  fold_left (fun b i => assign i "" b) (seq 0 9) board.

Definition isFull (board : Board) : bool :=
  forallb (fun cell => negb (String.eqb cell "")) board.

End Gameboard.

(** ** Player *)

Record Player : Type := mkPlayer { name : string; marker : string }.

(** ** AI: minimax *)

Module AI.

Definition checkWinner (board : Board) (marker : string) : bool :=
  existsb (fun condition =>
             forallb (fun index => cellIs board index marker) condition)
          winConditions.

Definition isBoardFull (board : Board) : bool :=
  forallb (fun cell => negb (String.eqb cell "")) board.

Definition evaluate (board : Board) (computerMarker playerMarker : string) : Z :=
  if checkWinner board computerMarker then 10
  else if checkWinner board playerMarker then -10
  else 0.

(** The recursion of [minimax], bounded by [fuel] nested calls.  The
    script writes the move into the array, recurses, and writes the
    empty string back; the cell was empty before, so the recursive
    call sees the array with that one cell replaced and the caller
    goes on with the array it had. *)
Fixpoint minimax_fuel (fuel : nat) (board : Board) (depth : Z)
         (isMaximizing : bool) (computerMarker playerMarker : string)
  : option Score :=
  match fuel with
  | O => None
  | S fuel' =>
    let score := evaluate board computerMarker playerMarker in
    if score =? 10 then Some (Num (score - depth))
    else if score =? -10 then Some (Num (score + depth))
    else if isBoardFull board then Some (Num 0)
    else if isMaximizing then
      for9 (fun bestScore i =>
              if cellIs board i "" then
                match minimax_fuel fuel' (<[i := computerMarker]> board)
                                   (depth + 1) false
                                   computerMarker playerMarker with
                | Some score => Some (score_max score bestScore)
                | None => None
                end
              else Some bestScore) NegInfinity
    else
      for9 (fun bestScore i =>
              if cellIs board i "" then
                match minimax_fuel fuel' (<[i := playerMarker]> board)
                                   (depth + 1) true
                                   computerMarker playerMarker with
                | Some score => Some (score_min score bestScore)
                | None => None
                end
              else Some bestScore) PosInfinity
  end.

(** The loop of [getBestMove]; its state is [(bestScore, bestMove)]. *)
Definition getBestMove_fuel (fuel : nat) (board : Board)
           (computerMarker playerMarker : string) : option (option nat) :=
  let boardCopy := board in
  match
    for9 (fun '(bestScore, bestMove) i =>
            if cellIs boardCopy i "" then
              match minimax_fuel fuel (<[i := computerMarker]> boardCopy) 0 false
                                 computerMarker playerMarker with
              | Some score =>
                if score_gt score bestScore then Some (score, Some i)
                else Some (bestScore, bestMove)
              | None => None
              end
            else Some (bestScore, bestMove)) (NegInfinity, None)
  with
  | Some (_, bestMove) => Some bestMove
  | None => None
  end.

(** Number of empty cells of the array. *)
Definition emptyCount (board : Board) : nat :=
  length (List.filter (fun cell => String.eqb cell "") board).

(** Nesting depth that the recursion cannot exceed on [board] unless
    it never ends (see [minimax_fuel_enough]). *)
Definition enough (board : Board) : nat := (2 * emptyCount board + 3)%nat.

(** [minimax] as called: running out of the bound is the unbounded
    recursion, which the engine ends with a [RangeError]. *)
Definition minimax (board : Board) (depth : Z) (isMaximizing : bool)
           (computerMarker playerMarker : string) : outcome Score :=
  match minimax_fuel (enough board) board depth isMaximizing
                     computerMarker playerMarker with
  | Some s => Returned s
  | None => Threw RangeError
  end.

(** [getBestMove]: [None] is the script's [null]. *)
Definition getBestMove (board : Board) (computerMarker playerMarker : string)
  : outcome (option nat) :=
  match getBestMove_fuel (enough board) board computerMarker playerMarker with
  | Some m => Returned m
  | None => Threw RangeError
  end.

End AI.

(** ** AI: heuristic (the variant of the script without the search) *)

Module HeuristicAI.

(** [values.filter(v => v === x).length] for the three cells of a
    triple. *)
Definition countIs (board : Board) (condition : list nat) (x : string) : nat :=
  length (List.filter (fun index => cellIs board index x) condition).

(** One round of the loop over the triples: the index the round
    returns, or [None] when the loop goes on. *)
Definition tryCondition (board : Board) (marker : string)
           (condition : list nat) : option nat :=
  match condition with
  | [a; b; c] =>
    let markerCount := countIs board condition marker in
    let emptyCount := countIs board condition "" in
    if (markerCount =? 2)%nat && (emptyCount =? 1)%nat then
      if cellIs board a "" then Some a
      else if cellIs board b "" then Some b
      else if cellIs board c "" then Some c
      else None
    else None
  | _ => None
  end.

Fixpoint findWinningMove_in (conditions : list (list nat)) (board : Board)
         (marker : string) : option nat :=
  match conditions with
  | [] => None
  | condition :: rest =>
    match tryCondition board marker condition with
    | Some index => Some index
    | None => findWinningMove_in rest board marker
    end
  end.

Definition findWinningMove (board : Board) (marker : string) : option nat :=
  findWinningMove_in winConditions board marker.

Definition corners : list nat := [0; 2; 6; 8]%nat.
Definition edges : list nat := [1; 3; 5; 7]%nat.

(** [Math.floor(Math.random() * n)] is some integer of [0..n-1]; the
    draw is the parameter [random], taken modulo [n]. *)
Definition getBestMove (random : nat) (board : Board)
           (computerMarker playerMarker : string) : option nat :=
  match findWinningMove board computerMarker with
  | Some move => Some move
  | None =>
    match findWinningMove board playerMarker with
    | Some move => Some move
    | None =>
      if cellIs board 4 "" then Some 4%nat
      else
        let availableCorners := List.filter (fun index => cellIs board index "") corners in
        if (0 <? length availableCorners)%nat then
          availableCorners !! (random mod length availableCorners)%nat
        else
          let availableEdges := List.filter (fun index => cellIs board index "") edges in
          if (0 <? length availableEdges)%nat then
            availableEdges !! (random mod length availableEdges)%nat
          else None
    end
  end.

End HeuristicAI.

(** ** Game controller *)

(** The object literals [makeMove] and [makeComputerMove] return; a
    field that the literal does not have is [None].  The [winner] field
    holds [null] or a reference to a player object. *)
Inductive PlayerRef : Type := P1 | P2.

Module Result.
Record t : Type := mk {
  success : bool;
  message : option string;
  gameOver : option bool;
  winner : option (option PlayerRef) }.
End Result.

Module GameController.

(** The module's variables and the array of [Gameboard].  The
    variables [currentPlayer] and [winner] hold [null] or a reference
    to the object stored in [player1] or in [player2]. *)
Record GameState : Type := mkState {
  board : Board;
  player1 : option Player;
  player2 : option Player;
  currentPlayer : option PlayerRef;
  gameOver : bool;
  winner : option PlayerRef;
  vsComputer : bool;
  computerMarker : string }.

(** The state when the script has been loaded. *)
Definition loaded : GameState :=
  mkState Gameboard.initial None None None false None false "O".

(** The value of the variable [player1], [player2] read as a
    reference. *)
Definition refPlayer1 (st : GameState) : option PlayerRef :=
  match player1 st with Some _ => Some P1 | None => None end.
Definition refPlayer2 (st : GameState) : option PlayerRef :=
  match player2 st with Some _ => Some P2 | None => None end.

Definition refEq (r1 r2 : option PlayerRef) : bool :=
  match r1, r2 with
  | None, None => true
  | Some P1, Some P1 => true
  | Some P2, Some P2 => true
  | _, _ => false
  end.

(** [r.marker]: reading a property of [null] throws. *)
Definition markerOf (st : GameState) (r : option PlayerRef) : outcome string :=
  match r with
  | Some P1 => match player1 st with
               | Some p => Returned (marker p)
               | None => Threw TypeError
               end
  | Some P2 => match player2 st with
               | Some p => Returned (marker p)
               | None => Threw TypeError
               end
  | None => Threw TypeError
  end.

(** [name || fallback] *)
Definition orDefault (name fallback : string) : string :=
  if String.eqb name "" then fallback else name.

Definition initialize (name1 name2 : string) (isVsComputer : bool)
           (st : GameState) : GameState :=
  let p1 := mkPlayer (orDefault name1 "Player 1") "X" in
  let p2 := if isVsComputer then mkPlayer "Computer" "O"
            else mkPlayer (orDefault name2 "Player 2") "O" in
  {| board := Gameboard.reset (board st);
     player1 := Some p1;
     player2 := Some p2;
     currentPlayer := Some P1;
     gameOver := false;
     winner := None;
     vsComputer := isVsComputer;
     computerMarker := if isVsComputer then "O" else computerMarker st |}.

Definition getCurrentPlayer (st : GameState) : option PlayerRef := currentPlayer st.

Definition switchPlayer (st : GameState) : GameState :=
  {| board := board st;
     player1 := player1 st;
     player2 := player2 st;
     currentPlayer := if refEq (currentPlayer st) (refPlayer1 st)
                      then refPlayer2 st else refPlayer1 st;
     gameOver := gameOver st;
     winner := winner st;
     vsComputer := vsComputer st;
     computerMarker := computerMarker st |}.

Definition checkWinner (st : GameState) : outcome bool :=
  marker ← markerOf st (currentPlayer st);
  Returned (existsb (fun condition =>
                       forallb (fun index => cellIs (board st) index marker) condition)
                    winConditions).

Definition withBoard (st : GameState) (b : Board) : GameState :=
  {| board := b;
     player1 := player1 st;
     player2 := player2 st;
     currentPlayer := currentPlayer st;
     gameOver := gameOver st;
     winner := winner st;
     vsComputer := vsComputer st;
     computerMarker := computerMarker st |}.

Definition finish (st : GameState) (w : option PlayerRef) : GameState :=
  {| board := board st;
     player1 := player1 st;
     player2 := player2 st;
     currentPlayer := currentPlayer st;
     gameOver := true;
     winner := w;
     vsComputer := vsComputer st;
     computerMarker := computerMarker st |}.

(** [v !== ''] on what [getCell] returns. *)
Definition notEmptyString (v : Gameboard.CellValue) : bool :=
  match v with
  | Gameboard.Cell c => negb (String.eqb c "")
  | Gameboard.Undefined => true
  | Gameboard.Null => true
  end.

Definition makeMove (index : Z) (st : GameState) : outcome (GameState * Result.t) :=
  if gameOver st then
    Returned (st, Result.mk false (Some "Game is over!") None None)
  else if notEmptyString (Gameboard.getCell index (board st)) then
    Returned (st, Result.mk false (Some "Cell is already taken!") None None)
  else
    marker ← markerOf st (currentPlayer st);
    let st := withBoard st (fst (Gameboard.setCell index marker (board st))) in
    won ← checkWinner st;
    if (won : bool) then
      Returned (finish st (currentPlayer st),
                Result.mk true None (Some true) (Some (currentPlayer st)))
    else if Gameboard.isFull (board st) then
      Returned (finish st (winner st),
                Result.mk true None (Some true) (Some None))
    else
      Returned (switchPlayer st, Result.mk true None (Some false) None).

(** [null] is [None]; the loop over the triples returns the first one
    that the winner's marker holds. *)
Definition getWinningCells (st : GameState) : outcome (option (list nat)) :=
  if negb (gameOver st) || refEq (winner st) None then Returned None
  else
    marker ← markerOf st (winner st);
    Returned (List.find
                (fun condition =>
                   forallb (fun index => cellIs (board st) index marker) condition)
                winConditions).

Definition isGameOver (st : GameState) : bool := gameOver st.
Definition getWinner (st : GameState) : option PlayerRef := winner st.
Definition isVsComputer (st : GameState) : bool := vsComputer st.

Definition isComputerTurn (st : GameState) : outcome bool :=
  if vsComputer st then
    marker ← markerOf st (currentPlayer st);
    Returned (String.eqb marker (computerMarker st))
  else Returned false.

Definition makeComputerMove (st : GameState) : outcome (GameState * Result.t) :=
  turn ← isComputerTurn st;
  if negb (turn : bool) || gameOver st then
    Returned (st, Result.mk false None None None)
  else
    playerMarker ← markerOf st (refPlayer1 st);
    move ← AI.getBestMove (board st) (computerMarker st) playerMarker;
    match move with
    | Some move => makeMove (Z.of_nat move) st
    | None => Returned (st, Result.mk false None None None)
    end.

(** The game logic of the click handler of the display: the human's
    move, then, when the game goes on against the computer, the
    computer's move.  The handler runs the second step from a timer;
    here it runs before the next click is handled. *)
Definition handleCellClick (index : Z) (st : GameState) : outcome GameState :=
  r ← makeMove index st;
  let '(st, result) := r in
  if Result.success result then
    match Result.gameOver result with
    | Some true => Returned st
    | _ =>
      turn ← isComputerTurn st;
      if isVsComputer st && (turn : bool) then
        r ← makeComputerMove st;
        Returned (fst r)
      else Returned st
    end
  else Returned st.

(** A game: the clicks of the human player, one after the other. *)
Fixpoint play (clicks : list Z) (st : GameState) : outcome GameState :=
  match clicks with
  | [] => Returned st
  | index :: rest => st ← handleCellClick index st; play rest st
  end.

End GameController.

(** ** Vocabulary of the specification *)

(** [marker] holds all cells of one of the eight triples. *)
Definition occupiesTriple (board : Board) (marker : string) : Prop :=
  exists condition, In condition winConditions /\
    forall index, In index condition -> board !! index = Some marker.

(** No cell of the array is empty. *)
Definition boardFull (board : Board) : Prop :=
  forall i c, board !! i = Some c -> c <> "".

(** A position at which the search stops, with the value the
    specification gives it at nesting depth [depth]. *)
Inductive terminalValue (board : Board) (computerMarker playerMarker : string)
          (depth : Z) : Z -> Prop :=
| ComputerWins :
    occupiesTriple board computerMarker ->
    terminalValue board computerMarker playerMarker depth (10 - depth)
| OpponentWins :
    ~ occupiesTriple board computerMarker ->
    occupiesTriple board playerMarker ->
    terminalValue board computerMarker playerMarker depth (-10 + depth)
| Tie :
    ~ occupiesTriple board computerMarker ->
    ~ occupiesTriple board playerMarker ->
    boardFull board ->
    terminalValue board computerMarker playerMarker depth 0.

Inductive Phase : Type := InProgress | Over.

Definition phase (st : GameController.GameState) : Phase :=
  if GameController.gameOver st then Over else InProgress.

(** A run of [makeMove] calls that all report success. *)
Fixpoint successfulMoves (indices : list Z) (st : GameController.GameState)
  : option GameController.GameState :=
  match indices with
  | [] => Some st
  | index :: rest =>
    match GameController.makeMove index st with
    | Returned (st', r) =>
      if Result.success r then successfulMoves rest st' else None
    | Threw _ => None
    end
  end.

(** Whose turn it is after [n] moves when player 1 starts and the
    players take turns. *)
Definition turnAfter (n : nat) : PlayerRef := if Nat.even n then P1 else P2.

(** The reasons the specification lists for a failure result. *)
Definition specReasons : list string :=
  ["game is over"; "cell already taken"; "not computer's turn"].

(** A game against the computer in which the human player is to move. *)
Definition humanToMove : GameController.GameState :=
  GameController.initialize "Ann" "" true GameController.loaded.

(** The players exist and one of them is to move, as after
    [initialize]. *)
Definition ready (st : GameController.GameState) : Prop :=
  GameController.player1 st <> None /\
  GameController.player2 st <> None /\
  GameController.currentPlayer st <> None.

(** The other player. *)
Definition opponentOf (r : option PlayerRef) : option PlayerRef :=
  match r with
  | Some P1 => Some P2
  | Some P2 => Some P1
  | None => None
  end.

(** Cell [i] is empty and is the only cell of [condition] that
    [marker] does not hold. *)
Definition completes (board : Board) (marker : string) (condition : list nat)
           (i : nat) : Prop :=
  board !! i = Some "" /\ In i condition /\
  forall j, In j condition -> j <> i -> board !! j = Some marker.

(** Playing [marker] on [i] completes one of the eight triples. *)
Definition winningCell (board : Board) (marker : string) (i : nat) : Prop :=
  exists condition, In condition winConditions /\ completes board marker condition i.

(** Some empty cell of [cells]. *)
Definition emptyAmong (board : Board) (cells : list nat) (i : nat) : Prop :=
  In i cells /\ board !! i = Some "".

(** Three different cells. *)
Definition isTriple (condition : list nat) : Prop :=
  exists a b c, condition = [a; b; c] /\ a <> b /\ a <> c /\ b <> c /\
                (a < 9 /\ b < 9 /\ c < 9)%nat.

(** One more nested call than the empty cells account for is needed
    when the player to move writes the empty string, which fills no
    cell. *)
Definition moverEmpty (isMaximizing : bool)
           (computerMarker playerMarker : string) : nat :=
  if String.eqb (if isMaximizing then computerMarker else playerMarker) ""
  then 1%nat else 0%nat.

(** The body of the loops of [minimax]: [rec i] is the value of the
    nested call for cell [i] and [comb] is [Math.max] or [Math.min]. *)
Definition scanBody (board : Board) (rec : nat -> option Score)
           (comb : Score -> Score -> Score) (best : Score) (i : nat)
  : option Score :=
  if cellIs board i "" then
    match rec i with
    | Some score => Some (comb score best)
    | None => None
    end
  else Some best.

(** What the loop of [getBestMove] has established when it has looked
    at the cells below [k]: nothing found, or the best cell so far, whose
    score [sc] gives, no cell beating it and none before it equalling
    it. *)
Definition bestSoFar (board : Board) (sc : nat -> Z) (k : nat)
           (acc : Score * option nat) : Prop :=
  match acc with
  | (bestScore, None) =>
    bestScore = NegInfinity /\
    forall j, (j < k)%nat -> cellIs board j "" = false
  | (bestScore, Some best) =>
    (best < k)%nat /\ cellIs board best "" = true /\
    bestScore = Num (sc best) /\
    forall j, (j < k)%nat -> cellIs board j "" = true ->
              sc j <= sc best /\ ((j < best)%nat -> sc j < sc best)
  end.

(** The integer a terminated search returned, for stating facts about
    scores. *)
Definition scoreValue (o : option Score) : Z :=
  match o with
  | Some (Num z) => z
  | _ => 0
  end.

(** The state of a game in which player 1, the human with marker X,
    has not beaten the computer: player 1 is not the winner, X holds no
    triple, and a game that is over was won by player 2 or ended on a
    full board with no winner. *)
Definition notBeaten (st : GameController.GameState) : bool :=
  negb (GameController.refEq (GameController.winner st) (Some P1))
  && negb (AI.checkWinner (GameController.board st) "X")
  && (if GameController.gameOver st then
        GameController.refEq (GameController.winner st) (Some P2)
        || (GameController.refEq (GameController.winner st) None
            && Gameboard.isFull (GameController.board st))
      else true).

(** Exhaustive check of the games that go on from [st] for at most [n]
    more accepted clicks: every state met is [notBeaten], no call
    throws, and after [n] accepted clicks the game is over.  A click on
    a cell that is not empty is rejected and changes nothing, so only
    the empty cells are followed. *)
Fixpoint safe (n : nat) (st : GameController.GameState) : bool :=
  if notBeaten st then
    if GameController.gameOver st then true
    else
      match n with
      | O => false
      | S n' =>
        forallb
          (fun i =>
             if GameController.notEmptyString
                  (Gameboard.getCell (Z.of_nat i) (GameController.board st))
             then true
             else
               match GameController.handleCellClick (Z.of_nat i) st with
               | Returned st' => safe n' st'
               | Threw _ => false
               end)
          (seq 0 9)
      end
  else false.

(** The state [initialize] leaves for a game against the computer, the
    human player being called [name]. *)
Definition versusComputer (name : string) : GameController.GameState :=
  GameController.mkState Gameboard.initial
    (Some (mkPlayer name "X")) (Some (mkPlayer "Computer" "O"))
    (Some P1) false None true "O".

(** Number of cells that hold [m]. *)
Definition countMark (m : string) (board : Board) : nat :=
  length (List.filter (fun cell => String.eqb cell m) board).

(** The marker of the player a reference designates, for stating facts
    about games in which both players exist. *)
Definition markerOfRef (st : GameController.GameState) (r : PlayerRef) : string :=
  match r with
  | P1 => match GameController.player1 st with Some p => marker p | None => "" end
  | P2 => match GameController.player2 st with Some p => marker p | None => "" end
  end.

(** A game set up by [initialize] and played so far with [k] accepted
    moves: both players exist with the markers X and O; the board has
    nine cells, each empty or holding X or O, of which [k] are taken, X
    having moved first and the two taking turns; while the game goes on
    there is no winner and the player to move is the one whose turn it
    is; a winner made the last move and holds a triple; a game over
    without winner has a full board. *)
Record afterMoves (k : nat) (st : GameController.GameState) : Prop := {
  am_player1 : exists n1, GameController.player1 st = Some (mkPlayer n1 "X");
  am_player2 : exists n2, GameController.player2 st = Some (mkPlayer n2 "O");
  am_length : length (GameController.board st) = 9%nat;
  am_cells : forall i c, GameController.board st !! i = Some c ->
                         c = "" \/ c = "X" \/ c = "O";
  am_countX : countMark "X" (GameController.board st) = Nat.div2 (S k);
  am_countO : countMark "O" (GameController.board st) = Nat.div2 k;
  am_empty : (countMark "" (GameController.board st) + k = 9)%nat;
  am_progress : GameController.gameOver st = false ->
                GameController.winner st = None /\
                GameController.currentPlayer st = Some (turnAfter k);
  am_winner : forall p, GameController.winner st = Some p ->
                GameController.gameOver st = true /\
                occupiesTriple (GameController.board st) (markerOfRef st p) /\
                exists k', k = S k' /\ p = turnAfter k';
  am_draw : GameController.gameOver st = true ->
            GameController.winner st = None ->
            boardFull (GameController.board st);
  am_open : GameController.gameOver st = false ->
            exists i, GameController.board st !! i = Some "" }.

(** The state [makeMove] returns, with its result, when it accepts the
    move: [board'] is the board with the mark and [m] the marker. *)
Definition accepted (st : GameController.GameState) (board' : Board) (m : string)
  : GameController.GameState * Result.t :=
  let st1 := GameController.withBoard st board' in
  if AI.checkWinner board' m then
    (GameController.finish st1 (GameController.currentPlayer st),
     Result.mk true None (Some true) (Some (GameController.currentPlayer st)))
  else if Gameboard.isFull board' then
    (GameController.finish st1 (GameController.winner st),
     Result.mk true None (Some true) (Some None))
  else
    (GameController.switchPlayer st1, Result.mk true None (Some false) None).

(** A game against the computer after [k] accepted moves. *)
Definition computerGame (k : nat) (st : GameController.GameState) : Prop :=
  afterMoves k st /\
  GameController.vsComputer st = true /\
  GameController.computerMarker st = "O".

(** A game against the computer between two clicks: if it is still in
    progress, an even number of moves has been made. *)
Definition betweenClicks (st : GameController.GameState) : Prop :=
  exists k, computerGame k st /\
            (GameController.gameOver st = false -> Nat.even k = true).

(** What a loop of [minimax] has established when it has looked at the
    cells below [k]: nothing found, or the score [sc] of a cell that no
    cell looked at beats in the order [R]. *)
Definition extremumSoFar (board : Board) (sc : nat -> Z) (R : Z -> Z -> Prop)
           (init : Score) (k : nat) (s : Score) : Prop :=
  (s = init /\ forall j, (j < k)%nat -> cellIs board j "" = false) \/
  (exists b, (b < k)%nat /\ cellIs board b "" = true /\ s = Num (sc b) /\
             forall j, (j < k)%nat -> cellIs board j "" = true ->
                       R (sc j) (sc b)).

(** ** Reading cells *)

Lemma cellIs_true (board : Board) (i : nat) (v : string) :
  cellIs board i v = true <-> board !! i = Some v.
Proof.
  unfold cellIs. destruct (board !! i) as [c|]; [|split; discriminate].
  rewrite String.eqb_eq. split; congruence.
Qed.

Lemma cellIs_false (board : Board) (i : nat) (v : string) :
  cellIs board i v = false <-> board !! i <> Some v.
Proof.
  rewrite <- cellIs_true. destruct (cellIs board i v); split; congruence.
Qed.

Lemma checkWinner_spec (board : Board) (marker : string) :
  AI.checkWinner board marker = true <-> occupiesTriple board marker.
Proof.
  unfold AI.checkWinner, occupiesTriple. rewrite existsb_exists.
  split; intros (condition & Hin & H); exists condition; split; trivial.
  - rewrite forallb_forall in H. intros index Hi. apply cellIs_true; auto.
  - apply forallb_forall. intros index Hi. apply cellIs_true; auto.
Qed.

Lemma checkWinner_false (board : Board) (marker : string) :
  ~ occupiesTriple board marker -> AI.checkWinner board marker = false.
Proof.
  intros H. destruct (AI.checkWinner board marker) eqn:E; trivial.
  apply checkWinner_spec in E. contradiction.
Qed.

Lemma isBoardFull_spec (board : Board) :
  AI.isBoardFull board = true <-> boardFull board.
Proof.
  unfold AI.isBoardFull, boardFull. rewrite forallb_forall. split.
  - intros H i c Hi. apply list_elem_of_lookup_2, list_elem_of_In in Hi.
    apply H in Hi. apply negb_true_iff, String.eqb_neq in Hi. exact Hi.
  - intros H c Hc. apply list_elem_of_In, list_elem_of_lookup_1 in Hc.
    destruct Hc as [i Hi]. apply negb_true_iff, String.eqb_neq. eauto.
Qed.

(** ** The search at a terminal position *)

Lemma minimax_fuel_terminal (fuel : nat) (board : Board) (depth v : Z)
      (isMaximizing : bool) (computerMarker playerMarker : string) :
  terminalValue board computerMarker playerMarker depth v ->
  AI.minimax_fuel (S fuel) board depth isMaximizing computerMarker playerMarker
  = Some (Num v).
Proof.
  intros H. cbn [AI.minimax_fuel]. unfold AI.evaluate.
  destruct H as [Hc | Hc Hp | Hc Hp Hf].
  - apply checkWinner_spec in Hc. rewrite Hc. reflexivity.
  - apply checkWinner_false in Hc. apply checkWinner_spec in Hp.
    rewrite Hc, Hp. reflexivity.
  - apply checkWinner_false in Hc. apply checkWinner_false in Hp.
    apply isBoardFull_spec in Hf. rewrite Hc, Hp, Hf. reflexivity.
Qed.

(** C3. At a terminal position the search returns [+10 - depth] when the
    computer's marker holds a triple, otherwise [-10 + depth] when the
    opponent's marker holds one, otherwise [0] when the board is full;
    the triples are looked at before the full-board test, so a full
    board with a winner is scored as a win. *)
Theorem minimax_terminal_value (board : Board) (depth v : Z)
        (isMaximizing : bool) (computerMarker playerMarker : string) :
  terminalValue board computerMarker playerMarker depth v ->
  AI.minimax board depth isMaximizing computerMarker playerMarker
  = Returned (Num v).
Proof.
  intros H. unfold AI.minimax, AI.enough.
  replace (2 * AI.emptyCount board + 3)%nat
    with (S (2 * AI.emptyCount board + 2)) by lia.
  rewrite (minimax_fuel_terminal _ _ _ _ _ _ _ H). reflexivity.
Qed.

Lemma occupiesTriple_row0 (c3 c4 c5 c6 c7 c8 m : string) :
  occupiesTriple [m; m; m; c3; c4; c5; c6; c7; c8] m.
Proof.
  exists [0; 1; 2]%nat. split; [left; reflexivity|].
  intros index [<- | [<- | [<- | []]]]; reflexivity.
Qed.

(** A full board whose top row is the computer's is a win found at
    depth 3, not a tie. *)
Lemma minimax_terminal_value_witness :
  AI.minimax ["O"; "O"; "O"; "X"; "X"; "O"; "X"; "O"; "X"] 3 true "O" "X"
  = Returned (Num 7).
Proof.
  apply (minimax_terminal_value
           ["O"; "O"; "O"; "X"; "X"; "O"; "X"; "O"; "X"] 3 (10 - 3)).
  apply ComputerWins, occupiesTriple_row0.
Defined.

(** C5. On the boards [X,X,_,_,O,_,_,_,_] and [X,X,_,_,_,_,_,_,_] the
    search for O against X returns cell 2. *)
Theorem getBestMove_blocks_top_row :
  AI.getBestMove ["X"; "X"; ""; ""; "O"; ""; ""; ""; ""] "O" "X"
  = Returned (Some 2%nat) /\
  AI.getBestMove ["X"; "X"; ""; ""; ""; ""; ""; ""; ""] "O" "X"
  = Returned (Some 2%nat).
Proof. split; vm_compute; reflexivity. Qed.

(** ** Gameboard.setCell *)

(** C8. [setCell] returns [true] exactly when the index is one of [0..8]
    and the cell there is empty; it then holds the marker and every other
    cell is as before; in every other case it returns [false] and the
    array is unchanged. *)
Theorem setCell_spec (index : Z) (marker : string) (board : Board) :
  let board' := fst (Gameboard.setCell index marker board) in
  let ok := snd (Gameboard.setCell index marker board) in
  (ok = true <-> 0 <= index < 9 /\ board !! Z.to_nat index = Some "") /\
  (ok = true ->
     board' !! Z.to_nat index = Some marker /\
     length board' = length board /\
     forall j, j <> Z.to_nat index -> board' !! j = board !! j) /\
  (ok = false -> board' = board).
Proof.
  unfold Gameboard.setCell.
  destruct ((0 <=? index) && (index <? 9) && cellIs board (Z.to_nat index) "")
    eqn:E; cbn.
  - apply andb_true_iff in E as [E Hc]. apply andb_true_iff in E as [H0 H9].
    apply Z.leb_le in H0. apply Z.ltb_lt in H9. apply cellIs_true in Hc.
    split; [split; [intros _; split; [lia | assumption] | reflexivity]|].
    split; [intros _ | discriminate].
    split; [|split].
    + apply list_lookup_insert_eq. apply lookup_lt_is_Some. eauto.
    + apply length_insert.
    + intros j Hj. apply list_lookup_insert_ne. congruence.
  - split; [split; [discriminate|] | split; [discriminate | reflexivity]].
    intros [Hr Hc]. apply cellIs_true in Hc. rewrite Hc in E.
    destruct (Z.leb_spec 0 index), (Z.ltb_spec index 9);
      cbn in E; try discriminate; lia.
Qed.

(** Writing X on the empty cell 4 succeeds and cell 4 then holds X. *)
Lemma setCell_spec_witness :
  snd (Gameboard.setCell 4 "X" Gameboard.initial) = true /\
  fst (Gameboard.setCell 4 "X" Gameboard.initial) !! 4%nat = Some "X".
Proof.
  destruct (setCell_spec 4 "X" Gameboard.initial) as (Hok & Hwrite & _).
  assert (H : snd (Gameboard.setCell 4 "X" Gameboard.initial) = true).
  { apply Hok. split; [lia | reflexivity]. }
  split; [exact H | apply (Hwrite H)].
Defined.

(** ** Loops over the nine cells *)

Section For9.
Context {A : Type} (body : A -> nat -> option A).

Lemma fold_step_None (l : list nat) : fold_left (for9_step body) l None = None.
Proof. induction l as [|i l IH]; [reflexivity | exact IH]. Qed.

Variable P : nat -> A -> Prop.

Lemma fold_step_invariant (n : nat) :
  forall (start : nat) (a r : A),
    P start a ->
    (forall k a a', (start <= k < start + n)%nat -> P k a ->
                    body a k = Some a' -> P (S k) a') ->
    fold_left (for9_step body) (seq start n) (Some a) = Some r ->
    P (start + n)%nat r.
Proof.
  induction n as [|n IH]; intros start a r Ha Hstep Hr.
  - cbn in Hr. injection Hr as <-. rewrite Nat.add_0_r. exact Ha.
  - cbn [seq fold_left for9_step] in Hr.
    destruct (body a start) as [a'|] eqn:E.
    + replace (start + S n)%nat with (S start + n)%nat by lia.
      apply (IH (S start) a'); trivial.
      * apply (Hstep start a); trivial. lia.
      * intros k b b' Hk. apply Hstep. lia.
    + change (fold_left (for9_step body) (seq (S start) n) None = Some r) in Hr.
      rewrite fold_step_None in Hr. discriminate.
Qed.

Lemma fold_step_total (n : nat) :
  forall (start : nat) (a : A),
    P start a ->
    (forall k a, (start <= k < start + n)%nat -> P k a ->
                 exists a', body a k = Some a' /\ P (S k) a') ->
    exists r, fold_left (for9_step body) (seq start n) (Some a) = Some r /\
              P (start + n)%nat r.
Proof.
  induction n as [|n IH]; intros start a Ha Hstep.
  - exists a. rewrite Nat.add_0_r. split; [reflexivity | exact Ha].
  - destruct (Hstep start a) as (a' & E & Ha'); [lia | exact Ha |].
    cbn [seq fold_left for9_step]. rewrite E.
    replace (start + S n)%nat with (S start + n)%nat by lia.
    apply IH; trivial.
    intros k b Hk. apply Hstep. lia.
Qed.

Lemma for9_invariant (init r : A) :
  P 0%nat init ->
  (forall k a a', (k < 9)%nat -> P k a -> body a k = Some a' -> P (S k) a') ->
  for9 body init = Some r -> P 9%nat r.
Proof.
  intros H0 Hstep Hr.
  apply (fold_step_invariant 9 0 init r); trivial.
  intros k a a' Hk. apply Hstep. lia.
Qed.

Lemma for9_total (init : A) :
  P 0%nat init ->
  (forall k a, (k < 9)%nat -> P k a ->
               exists a', body a k = Some a' /\ P (S k) a') ->
  exists r, for9 body init = Some r /\ P 9%nat r.
Proof.
  intros H0 Hstep.
  apply (fold_step_total 9 0 init); trivial.
  intros k a Hk. apply Hstep. lia.
Qed.
End For9.

(** ** makeMove: rejected calls *)

Section MakeMove.
Import GameController.

Lemma getCell_out_of_range (index : Z) (board : Board) :
  index < 0 \/ 9 <= index -> Gameboard.getCell index board = Gameboard.Null.
Proof.
  intros H. unfold Gameboard.getCell.
  destruct (Z.leb_spec 0 index), (Z.ltb_spec index 9); cbn; trivial; lia.
Qed.

Lemma notEmptyString_true (v : Gameboard.CellValue) :
  notEmptyString v = true <-> v <> Gameboard.Cell "".
Proof.
  destruct v as [c| |]; cbn; [|split; congruence ..].
  rewrite negb_true_iff, String.eqb_neq. split; congruence.
Qed.

Lemma makeMove_over (index : Z) (st : GameState) :
  gameOver st = true ->
  makeMove index st
  = Returned (st, Result.mk false (Some "Game is over!") None None).
Proof. intros H. unfold makeMove. rewrite H. reflexivity. Qed.

Lemma makeMove_taken (index : Z) (st : GameState) :
  gameOver st = false ->
  Gameboard.getCell index (board st) <> Gameboard.Cell "" ->
  makeMove index st
  = Returned (st, Result.mk false (Some "Cell is already taken!") None None).
Proof.
  intros H Hc. apply notEmptyString_true in Hc.
  unfold makeMove. rewrite H, Hc. reflexivity.
Qed.
End MakeMove.

(** C6. Called when the game is over, or on a cell that is not empty,
    [makeMove] reports failure and hands back the state it was given:
    board, current player, game-over flag and winner are untouched.  The
    game-over test comes first: it alone decides the message when both
    conditions hold. *)
Theorem makeMove_rejected (index : Z) (st : GameController.GameState) :
  GameController.gameOver st = true \/
  Gameboard.getCell index (GameController.board st) <> Gameboard.Cell "" ->
  exists reason,
    GameController.makeMove index st
    = Returned (st, Result.mk false (Some reason) None None) /\
    (GameController.gameOver st = true -> reason = "Game is over!") /\
    (GameController.gameOver st = false -> reason = "Cell is already taken!").
Proof.
  intros H. destruct (GameController.gameOver st) eqn:Hover.
  - exists "Game is over!". split; [|split; [trivial | discriminate]].
    apply makeMove_over. exact Hover.
  - destruct H as [H | H]; [discriminate|].
    exists "Cell is already taken!". split; [|split; [discriminate | trivial]].
    apply makeMove_taken; assumption.
Qed.

(** The game is over and the cell is taken as well: the game-over
    message is the one reported. *)
Lemma makeMove_rejected_witness :
  exists reason,
    GameController.makeMove 0
      (GameController.finish
         (GameController.withBoard GameController.loaded
            ["X"; ""; ""; ""; ""; ""; ""; ""; ""]) None)
    = Returned (GameController.finish
                  (GameController.withBoard GameController.loaded
                     ["X"; ""; ""; ""; ""; ""; ""; ""; ""]) None,
                Result.mk false (Some reason) None None) /\
    reason = "Game is over!".
Proof.
  destruct (makeMove_rejected 0
              (GameController.finish
                 (GameController.withBoard GameController.loaded
                    ["X"; ""; ""; ""; ""; ""; ""; ""; ""]) None))
    as (reason & E & Hover & _).
  - left. reflexivity.
  - exists reason. split; [exact E | apply Hover; reflexivity].
Defined.

(** C10. For an index outside [0..8], [getCell] answers with the [null]
    sentinel, which is not the empty string: [makeMove] on a game in
    progress reports the occupied-cell failure and changes nothing. *)
Theorem makeMove_out_of_range (index : Z) (st : GameController.GameState) :
  GameController.gameOver st = false ->
  index < 0 \/ 9 <= index ->
  Gameboard.getCell index (GameController.board st) = Gameboard.Null /\
  GameController.makeMove index st
  = Returned (st, Result.mk false (Some "Cell is already taken!") None None).
Proof.
  intros Hover Hrange.
  pose proof (getCell_out_of_range index (GameController.board st) Hrange) as E.
  split; [exact E|].
  apply makeMove_taken; [exact Hover|]. rewrite E. discriminate.
Qed.

Lemma makeMove_out_of_range_witness :
  Gameboard.getCell (-1) (GameController.board humanToMove) = Gameboard.Null /\
  GameController.makeMove (-1) humanToMove
  = Returned (humanToMove,
              Result.mk false (Some "Cell is already taken!") None None).
Proof.
  apply (makeMove_out_of_range (-1) humanToMove); [reflexivity | lia].
Defined.

(** ** makeMove: accepted calls and turns *)

Section Turns.
Import GameController.

Lemma makeMove_failure_inv (index : Z) (st st' : GameState) (r : Result.t) :
  makeMove index st = Returned (st', r) ->
  Result.success r = false ->
  st' = st /\
  ((gameOver st = true /\
    r = Result.mk false (Some "Game is over!") None None) \/
   (gameOver st = false /\
    notEmptyString (Gameboard.getCell index (board st)) = true /\
    r = Result.mk false (Some "Cell is already taken!") None None)).
Proof.
  unfold makeMove. destruct (gameOver st) eqn:Hover.
  { intros [= <- <-] _. auto. }
  destruct (notEmptyString _) eqn:Hcell.
  { intros [= <- <-] _. auto. }
  destruct (markerOf st (currentPlayer st)) as [m|e]; cbn; [|discriminate].
  destruct (checkWinner _) as [[|]|e]; cbn; [| |discriminate].
  - intros [= <- <-]. discriminate.
  - match goal with |- (if ?c then _ else _) = _ -> _ => destruct c end;
      intros [= <- <-]; discriminate.
Qed.

Lemma makeMove_success_turn (index : Z) (st st' : GameState) (r : Result.t) :
  ready st ->
  makeMove index st = Returned (st', r) ->
  Result.success r = true ->
  gameOver st = false /\ ready st' /\
  (gameOver st' = false -> currentPlayer st' = opponentOf (currentPlayer st)).
Proof.
  intros (H1 & H2 & Hc). unfold makeMove.
  destruct (gameOver st) eqn:Hover.
  { intros [= <- <-]. discriminate. }
  destruct (notEmptyString _).
  { intros [= <- <-]. discriminate. }
  destruct (markerOf st (currentPlayer st)) as [m|e]; cbn; [|discriminate].
  destruct (checkWinner _) as [[|]|e]; cbn; [| |discriminate].
  - intros [= <- <-] _. cbn. split; [trivial|]. split; [|discriminate].
    repeat split; assumption.
  - match goal with |- (if ?c then _ else _) = _ -> _ => destruct c end;
      intros [= <- <-] _; cbn.
    + split; [trivial|]. split; [|discriminate]. repeat split; assumption.
    + split; [trivial|].
      destruct (player1 st) as [p1|] eqn:E1; [|contradiction].
      destruct (player2 st) as [p2|] eqn:E2; [|contradiction].
      destruct (currentPlayer st) as [[|]|] eqn:Ec; [| |contradiction];
        unfold ready, switchPlayer, refPlayer1, refPlayer2, withBoard;
        cbn [player1 player2 currentPlayer gameOver]; rewrite ?E1, ?E2, ?Ec;
        cbn [refEq]; repeat split; try assumption; try discriminate; trivial.
Qed.

Lemma turnAfter_S (k : nat) : Some (turnAfter (S k)) = opponentOf (Some (turnAfter k)).
Proof.
  unfold turnAfter. rewrite Nat.even_succ, <- Nat.negb_even.
  destruct (Nat.even k); reflexivity.
Qed.

Lemma successfulMoves_turn (indices : list Z) :
  forall (k : nat) (st st' : GameState),
    ready st ->
    currentPlayer st = Some (turnAfter k) ->
    successfulMoves indices st = Some st' ->
    gameOver st' = false ->
    currentPlayer st' = Some (turnAfter (k + length indices)).
Proof.
  induction indices as [|index rest IH]; intros k st st' Hr Hk Hrun Hover.
  - cbn in Hrun. injection Hrun as <-. rewrite Nat.add_0_r. exact Hk.
  - cbn [successfulMoves] in Hrun.
    destruct (makeMove index st) as [[st1 r]|e] eqn:E; [|discriminate].
    destruct (Result.success r) eqn:Hs; [|discriminate].
    destruct (makeMove_success_turn _ _ _ _ Hr E Hs) as (_ & Hr1 & Hturn).
    destruct (gameOver st1) eqn:Hover1.
    + destruct rest as [|index' rest].
      * cbn in Hrun. injection Hrun as <-. congruence.
      * cbn [successfulMoves] in Hrun.
        rewrite (makeMove_over index' st1 Hover1) in Hrun. discriminate.
    + replace (k + length (index :: rest))%nat
        with (S k + length rest)%nat by (cbn [length]; lia).
      apply (IH (S k) st1); trivial.
      rewrite (Hturn eq_refl), Hk. symmetry. apply turnAfter_S.
Qed.

Lemma initialize_ready (name1 name2 : string) (isVsComputer : bool)
      (st : GameState) :
  ready (initialize name1 name2 isVsComputer st).
Proof. unfold ready; cbn. repeat split; discriminate. Qed.
End Turns.

(** C7. After [initialize] and any run of successful moves the game is
    in exactly one of the two phases, decided by the game-over flag, and
    as long as it is in progress the player to move is player 1 after an
    even number of moves and player 2 after an odd number: the players
    take turns, player 1 first. *)
Theorem players_alternate (name1 name2 : string) (isVsComputer : bool)
        (st0 st : GameController.GameState) (indices : list Z) :
  successfulMoves indices
    (GameController.initialize name1 name2 isVsComputer st0) = Some st ->
  (phase st = InProgress <-> GameController.gameOver st = false) /\
  (phase st = Over <-> GameController.gameOver st = true) /\
  (phase st = InProgress ->
   GameController.currentPlayer st = Some (turnAfter (length indices))).
Proof.
  intros Hrun. unfold phase.
  split; [destruct (GameController.gameOver st); split; congruence|].
  split; [destruct (GameController.gameOver st); split; congruence|].
  intros Hphase.
  apply (successfulMoves_turn indices 0 _ st
           (initialize_ready name1 name2 isVsComputer st0)); trivial.
  destruct (GameController.gameOver st); [discriminate | reflexivity].
Qed.

(** Three moves into a two-player game it is player 2's turn. *)
Lemma players_alternate_witness :
  exists st,
    successfulMoves [4; 0; 8]
      (GameController.initialize "Ann" "Bob" false GameController.loaded)
    = Some st /\
    phase st = InProgress /\
    GameController.currentPlayer st = Some P2.
Proof.
  eexists. split; [vm_compute; reflexivity|].
  split; [reflexivity|].
  apply (players_alternate "Ann" "Bob" false GameController.loaded _ [4; 0; 8]);
    reflexivity.
Defined.

(** ** Failure results *)

Section Failures.
Import GameController.

Lemma getBestMove_fuel_empty (fuel : nat) (board : Board)
      (computerMarker playerMarker : string) (move : nat) :
  AI.getBestMove_fuel fuel board computerMarker playerMarker = Some (Some move) ->
  (move < 9)%nat /\ cellIs board move "" = true.
Proof.
  unfold AI.getBestMove_fuel.
  match goal with |- match ?loop with _ => _ end = _ -> _ =>
                  destruct loop as [[bs bm]|] eqn:E end; [|discriminate].
  intros [= ->].
  cut (forall i, snd (bs, Some move) = Some i ->
                 (i < 9)%nat /\ cellIs board i "" = true);
    [intros Hinv; apply Hinv; reflexivity|].
  refine (for9_invariant _
            (fun k acc => forall i, snd acc = Some i ->
                                    (i < k)%nat /\ cellIs board i "" = true)
            _ _ _ _ E).
  - intros i Hi. discriminate Hi.
  - cbn beta. intros k [bs0 bm0] a' Hk IH. cbn [snd] in IH.
    destruct (cellIs board k "") eqn:Hc.
    + destruct (AI.minimax_fuel _ _ _ _ _ _) as [sc|]; [|discriminate].
      destruct (score_gt sc bs0); intros [= <-] i; cbn [snd].
      * intros [= <-]. split; [lia | exact Hc].
      * intros Hi. destruct (IH i Hi). split; [lia | assumption].
    + intros [= <-] i Hi. destruct (IH i Hi). split; [lia | assumption].
Qed.

Lemma getCell_empty (board : Board) (i : nat) :
  (i < 9)%nat -> cellIs board i "" = true ->
  Gameboard.getCell (Z.of_nat i) board = Gameboard.Cell "".
Proof.
  intros Hi Hc. apply cellIs_true in Hc. unfold Gameboard.getCell.
  destruct (Z.leb_spec 0 (Z.of_nat i)), (Z.ltb_spec (Z.of_nat i) 9);
    try lia.
  cbn. rewrite Nat2Z.id, Hc. reflexivity.
Qed.

Lemma makeComputerMove_failure_inv (st st' : GameState) (r : Result.t) :
  makeComputerMove st = Returned (st', r) ->
  Result.success r = false ->
  st' = st /\ r = Result.mk false None None None.
Proof.
  unfold makeComputerMove.
  destruct (isComputerTurn st) as [turn|e]; cbn; [|discriminate].
  destruct (negb turn || gameOver st) eqn:G.
  { intros [= <- <-]. auto. }
  apply orb_false_iff in G as [_ Hover].
  destruct (markerOf st (refPlayer1 st)) as [pm|e]; cbn; [|discriminate].
  unfold AI.getBestMove.
  destruct (AI.getBestMove_fuel _ _ _ _) as [[move|]|] eqn:E; cbn;
    [| intros [= <- <-]; auto | discriminate].
  intros Hm Hs. exfalso.
  apply getBestMove_fuel_empty in E as [Hlt Hc].
  destruct (makeMove_failure_inv _ _ _ _ Hm Hs) as [_ [[Ho _] | (_ & Hne & _)]].
  - congruence.
  - rewrite (getCell_empty _ _ Hlt Hc) in Hne. discriminate.
Qed.

Lemma makeComputerMove_not_turn (st : GameState) :
  isComputerTurn st = Returned false ->
  makeComputerMove st = Returned (st, Result.mk false None None None).
Proof. intros H. unfold makeComputerMove. rewrite H. reflexivity. Qed.
End Failures.

(** C9, as the specification words it, fails: asked to move when it is
    the human player's turn, [makeComputerMove] reports failure with no
    reason at all, so with none of the three the specification lists. *)
Lemma failure_reason_counterexample :
  exists r,
    GameController.isComputerTurn humanToMove = Returned false /\
    GameController.makeComputerMove humanToMove = Returned (humanToMove, r) /\
    Result.success r = false /\
    ~ (exists reason, Result.message r = Some reason /\ In reason specReasons).
Proof.
  exists (Result.mk false None None None).
  split; [reflexivity|]. split; [reflexivity|]. split; [reflexivity|].
  intros (reason & H & _). discriminate.
Qed.

(** ** The heuristic selector *)

Section Heuristic.
Import HeuristicAI.
Variable board : Board.
Variable marker : string.
Hypothesis marker_not_empty : marker <> "".

Lemma marker_or_empty (x : nat) :
  cellIs board x marker = true -> cellIs board x "" = false.
Proof.
  intros H. apply cellIs_true in H. apply cellIs_false. congruence.
Qed.

Lemma triple_counts (a b c : nat) :
  (countIs board [a; b; c] marker =? 2)%nat
  && (countIs board [a; b; c] "" =? 1)%nat = true <->
  (cellIs board a "" = true /\ cellIs board b marker = true
   /\ cellIs board c marker = true) \/
  (cellIs board a marker = true /\ cellIs board b "" = true
   /\ cellIs board c marker = true) \/
  (cellIs board a marker = true /\ cellIs board b marker = true
   /\ cellIs board c "" = true).
Proof.
  unfold countIs. cbn [List.filter].
  pose proof (marker_or_empty a) as Ha.
  pose proof (marker_or_empty b) as Hb.
  pose proof (marker_or_empty c) as Hc.
  destruct (cellIs board a marker), (cellIs board a "");
    try (specialize (Ha eq_refl); discriminate Ha);
    destruct (cellIs board b marker), (cellIs board b "");
    try (specialize (Hb eq_refl); discriminate Hb);
    destruct (cellIs board c marker), (cellIs board c "");
    try (specialize (Hc eq_refl); discriminate Hc);
    cbn; split; intros H; try discriminate H; try reflexivity; auto;
    repeat match goal with
           | H : _ \/ _ |- _ => destruct H
           | H : _ /\ _ |- _ => destruct H
           end; discriminate.
Qed.

Lemma tryCondition_some (condition : list nat) (i : nat) :
  tryCondition board marker condition = Some i ->
  completes board marker condition i.
Proof.
  unfold tryCondition.
  destruct condition as [|a [|b [|c [|d rest]]]]; try discriminate.
  destruct (_ && _) eqn:T; [|discriminate].
  apply triple_counts in T.
  pose proof (marker_or_empty a) as Ha.
  pose proof (marker_or_empty b) as Hb.
  pose proof (marker_or_empty c) as Hc.
  unfold completes.
  destruct T as [(T1 & T2 & T3) | [(T1 & T2 & T3) | (T1 & T2 & T3)]];
    [rewrite T1 | rewrite (Ha T1), T2 | rewrite (Ha T1), (Hb T2), T3];
    intros [= <-];
    (split; [apply cellIs_true; assumption|]);
    (split; [cbn; auto|]);
    intros j [<- | [<- | [<- | []]]] Hne;
    try congruence; apply cellIs_true; assumption.
Qed.

Lemma tryCondition_none (condition : list nat) (i : nat) :
  isTriple condition ->
  tryCondition board marker condition = None ->
  ~ completes board marker condition i.
Proof.
  intros (a & b & c & -> & Hab & Hac & Hbc & _) Hnone (He & Hi & Hrest).
  assert (Hm : forall j, In j [a; b; c] -> j <> i ->
                         cellIs board j marker = true).
  { intros j Hj Hne. apply cellIs_true. auto. }
  apply cellIs_true in He.
  assert (T : (countIs board [a; b; c] marker =? 2)%nat
              && (countIs board [a; b; c] "" =? 1)%nat = true).
  { apply triple_counts.
    destruct Hi as [<- | [<- | [<- | []]]].
    - left. repeat split; trivial; apply Hm; cbn; auto.
    - right; left. repeat split; trivial; apply Hm; cbn; auto.
    - right; right. repeat split; trivial; apply Hm; cbn; auto. }
  unfold tryCondition in Hnone. rewrite T in Hnone.
  destruct Hi as [<- | [<- | [<- | []]]]; rewrite ?He in Hnone;
    repeat match type of Hnone with
           | (if ?x then _ else _) = _ => destruct x
           end; discriminate.
Qed.

Lemma findWinningMove_in_some (conditions : list (list nat)) (i : nat) :
  findWinningMove_in conditions board marker = Some i ->
  exists condition, In condition conditions /\
                    completes board marker condition i.
Proof.
  induction conditions as [|condition rest IH]; [discriminate|].
  cbn [findWinningMove_in].
  destruct (tryCondition board marker condition) as [k|] eqn:E.
  - intros [= ->]. exists condition. split; [left; reflexivity|].
    apply tryCondition_some. exact E.
  - intros H. destruct (IH H) as (c & Hc & Hcomp).
    exists c. split; [right; exact Hc | exact Hcomp].
Qed.

Lemma findWinningMove_in_none (conditions : list (list nat)) :
  Forall isTriple conditions ->
  findWinningMove_in conditions board marker = None ->
  forall condition i, In condition conditions ->
                      ~ completes board marker condition i.
Proof.
  induction 1 as [|condition rest Ht Hrest IH]; [intros _ c i []|].
  cbn [findWinningMove_in].
  destruct (tryCondition board marker condition) as [k|] eqn:E; [discriminate|].
  intros Hnone c i [<- | Hc].
  - apply tryCondition_none; assumption.
  - apply IH; assumption.
Qed.
End Heuristic.

Lemma winConditions_triples : Forall isTriple winConditions.
Proof.
  unfold winConditions.
  repeat (constructor;
          [eexists _, _, _; split; [reflexivity|]; repeat split; lia|]).
  constructor.
Qed.

Lemma winConditions_range (condition : list nat) (i : nat) :
  In condition winConditions -> In i condition -> (i < 9)%nat.
Proof.
  intros Hc Hi.
  pose proof winConditions_triples as H. rewrite Forall_forall in H.
  destruct (H condition) as (a & b & c & -> & _ & _ & _ & Ha & Hb & Hc').
  { apply list_elem_of_In. exact Hc. }
  destruct Hi as [<- | [<- | [<- | []]]]; assumption.
Qed.

Lemma findWinningMove_some (board : Board) (marker : string) (i : nat) :
  marker <> "" ->
  HeuristicAI.findWinningMove board marker = Some i ->
  winningCell board marker i.
Proof. intros Hm. apply findWinningMove_in_some. exact Hm. Qed.

Lemma findWinningMove_none (board : Board) (marker : string) :
  marker <> "" ->
  HeuristicAI.findWinningMove board marker = None ->
  ~ exists i, winningCell board marker i.
Proof.
  intros Hm Hnone (i & condition & Hin & Hcomp).
  revert Hcomp.
  apply (findWinningMove_in_none board marker Hm winConditions); trivial.
  apply winConditions_triples.
Qed.

Lemma pick_available (random : nat) (board : Board) (cells : list nat) :
  let available := List.filter (fun index => cellIs board index "") cells in
  (0 <? length available)%nat = true ->
  exists i, available !! (random mod length available)%nat = Some i /\
            emptyAmong board cells i.
Proof.
  intros available Hlen. apply Nat.ltb_lt in Hlen.
  destruct (lookup_lt_is_Some_2 available (random mod length available)%nat)
    as [i Hi].
  { apply Nat.mod_upper_bound. lia. }
  exists i. split; [exact Hi|].
  apply list_elem_of_lookup_2, list_elem_of_In, filter_In in Hi.
  destruct Hi as [Hin Hc]. split; [exact Hin | apply cellIs_true; exact Hc].
Qed.

Lemma none_available (board : Board) (cells : list nat) :
  (0 <? length (List.filter (fun index => cellIs board index "") cells))%nat
  = false ->
  ~ exists i, emptyAmong board cells i.
Proof.
  intros Hlen (i & Hin & He). apply Nat.ltb_ge in Hlen.
  assert (Hf : In i (List.filter (fun index => cellIs board index "") cells)).
  { apply filter_In. split; [exact Hin | apply cellIs_true; exact He]. }
  destruct (List.filter _ cells); [destruct Hf | cbn in Hlen; lia].
Qed.

(** The six ways the priority chain can end. *)
Lemma getBestMove_cases (random : nat) (board : Board)
      (computerMarker playerMarker : string) :
  computerMarker <> "" -> playerMarker <> "" ->
  let r := HeuristicAI.getBestMove random board computerMarker playerMarker in
  let canWin := exists i, winningCell board computerMarker i in
  let canBlock := exists i, winningCell board playerMarker i in
  let corner := exists i, emptyAmong board HeuristicAI.corners i in
  let edge := exists i, emptyAmong board HeuristicAI.edges i in
  (exists i, r = Some i /\ winningCell board computerMarker i) \/
  (~ canWin /\ exists i, r = Some i /\ winningCell board playerMarker i) \/
  (~ canWin /\ ~ canBlock /\ board !! 4%nat = Some "" /\ r = Some 4%nat) \/
  (~ canWin /\ ~ canBlock /\ board !! 4%nat <> Some "" /\
   exists i, r = Some i /\ emptyAmong board HeuristicAI.corners i) \/
  (~ canWin /\ ~ canBlock /\ board !! 4%nat <> Some "" /\ ~ corner /\
   exists i, r = Some i /\ emptyAmong board HeuristicAI.edges i) \/
  (~ canWin /\ ~ canBlock /\ board !! 4%nat <> Some "" /\ ~ corner /\ ~ edge /\
   r = None).
Proof.
  intros Hc Hp r canWin canBlock corner edge.
  subst r canWin canBlock corner edge. unfold HeuristicAI.getBestMove.
  destruct (HeuristicAI.findWinningMove board computerMarker) as [i|] eqn:Ewin.
  { left. exists i. split; [reflexivity|].
    apply findWinningMove_some; assumption. }
  apply (findWinningMove_none _ _ Hc) in Ewin. right.
  destruct (HeuristicAI.findWinningMove board playerMarker) as [i|] eqn:Eblock.
  { left. split; [exact Ewin|]. exists i. split; [reflexivity|].
    apply findWinningMove_some; assumption. }
  apply (findWinningMove_none _ _ Hp) in Eblock. right.
  destruct (cellIs board 4 "") eqn:Ecenter.
  { left. apply cellIs_true in Ecenter. auto. }
  apply cellIs_false in Ecenter. right.
  destruct (0 <? length (List.filter _ HeuristicAI.corners))%nat eqn:Ecorner.
  { left. repeat (split; [assumption|]).
    apply (pick_available random). exact Ecorner. }
  apply none_available in Ecorner. right.
  destruct (0 <? length (List.filter _ HeuristicAI.edges))%nat eqn:Eedge.
  { left. repeat (split; [assumption|]).
    apply (pick_available random). exact Eedge. }
  apply none_available in Eedge. right.
  repeat (split; [assumption|]). reflexivity.
Qed.

Lemma winningCell_empty (board : Board) (marker : string) (i : nat) :
  winningCell board marker i -> (i < 9)%nat /\ board !! i = Some "".
Proof.
  intros (condition & Hin & He & Hi & _).
  split; [exact (winConditions_range condition i Hin Hi) | exact He].
Qed.

Lemma emptyAmong_range (board : Board) (i : nat) :
  emptyAmong board HeuristicAI.corners i \/ emptyAmong board HeuristicAI.edges i ->
  (i < 9)%nat /\ board !! i = Some "".
Proof.
  intros [[Hin He] | [Hin He]]; (split; [|exact He]); cbn in Hin;
    repeat (destruct Hin as [<- | Hin]; [lia|]); destruct Hin.
Qed.

Lemma cell_kinds (i : nat) :
  (i < 9)%nat -> i = 4%nat \/ In i HeuristicAI.corners \/ In i HeuristicAI.edges.
Proof.
  intros Hi.
  do 9 (destruct i as [|i]; [cbn; tauto|]). lia.
Qed.

(** C4. The heuristic selector, for markers that are not the empty
    string and whatever the random draw: it returns a cell that wins for
    the computer when there is one; otherwise a cell that blocks the
    opponent when there is one; otherwise the centre when it is empty;
    otherwise an empty corner when there is one; otherwise an empty edge
    when there is one; and it returns [null] exactly when none of the
    nine cells is empty. *)
Theorem heuristic_priorities (random : nat) (board : Board)
        (computerMarker playerMarker : string) :
  computerMarker <> "" -> playerMarker <> "" ->
  let r := HeuristicAI.getBestMove random board computerMarker playerMarker in
  let canWin := exists i, winningCell board computerMarker i in
  let canBlock := exists i, winningCell board playerMarker i in
  let corner := exists i, emptyAmong board HeuristicAI.corners i in
  let edge := exists i, emptyAmong board HeuristicAI.edges i in
  (canWin -> exists i, r = Some i /\ winningCell board computerMarker i) /\
  (~ canWin -> canBlock ->
   exists i, r = Some i /\ winningCell board playerMarker i) /\
  (~ canWin -> ~ canBlock -> board !! 4%nat = Some "" -> r = Some 4%nat) /\
  (~ canWin -> ~ canBlock -> board !! 4%nat <> Some "" -> corner ->
   exists i, r = Some i /\ emptyAmong board HeuristicAI.corners i) /\
  (~ canWin -> ~ canBlock -> board !! 4%nat <> Some "" -> ~ corner -> edge ->
   exists i, r = Some i /\ emptyAmong board HeuristicAI.edges i) /\
  (r = None <-> forall i, (i < 9)%nat -> board !! i <> Some "").
Proof.
  intros Hc Hp r canWin canBlock corner edge.
  pose proof (getBestMove_cases random board _ _ Hc Hp) as Hcases.
  cbv zeta in Hcases. fold r canWin canBlock corner edge in Hcases.
  repeat split.
  - intros Hw.
    destruct Hcases as [H | [(N & _) | [(N & _) | [(N & _) | [(N & _) | (N & _)]]]]];
      [exact H | contradiction ..].
  - intros Hnw Hb.
    destruct Hcases as [(i & _ & W) | [(_ & H) | [(_ & N & _) | [(_ & N & _)
                       | [(_ & N & _) | (_ & N & _)]]]]];
      [exfalso; apply Hnw; exists i; exact W | exact H | contradiction ..].
  - intros Hnw Hnb H4.
    destruct Hcases as [(i & _ & W) | [(_ & i & _ & W) | [(_ & _ & _ & H)
                       | [(_ & _ & N & _) | [(_ & _ & N & _) | (_ & _ & N & _)]]]]];
      [exfalso; apply Hnw; exists i; exact W
      | exfalso; apply Hnb; exists i; exact W
      | exact H | contradiction ..].
  - intros Hnw Hnb H4 Hcorner.
    destruct Hcases as [(i & _ & W) | [(_ & i & _ & W) | [(_ & _ & N & _)
                       | [(_ & _ & _ & H) | [(_ & _ & _ & N & _)
                       | (_ & _ & _ & N & _)]]]]];
      [exfalso; apply Hnw; exists i; exact W
      | exfalso; apply Hnb; exists i; exact W
      | contradiction | exact H | contradiction ..].
  - intros Hnw Hnb H4 Hncorner Hedge.
    destruct Hcases as [(i & _ & W) | [(_ & i & _ & W) | [(_ & _ & N & _)
                       | [(_ & _ & _ & i & _ & W) | [(_ & _ & _ & _ & H)
                       | (_ & _ & _ & _ & N & _)]]]]];
      [exfalso; apply Hnw; exists i; exact W
      | exfalso; apply Hnb; exists i; exact W
      | contradiction
      | exfalso; apply Hncorner; exists i; exact W
      | exact H | contradiction].
  - intros Hnone i Hi.
    destruct Hcases as [(k & E & _) | [(_ & k & E & _) | [(_ & _ & _ & E)
                       | [(_ & _ & _ & k & E & _) | [(_ & _ & _ & _ & k & E & _)
                       | (_ & _ & H4 & Hncorner & Hnedge & _)]]]]];
      try congruence.
    destruct (cell_kinds i Hi) as [-> | [Hin | Hin]]; [exact H4 | |];
      intros He; [apply Hncorner | apply Hnedge]; exists i; split; assumption.
  - intros Hfull.
    destruct Hcases as [(k & _ & W) | [(_ & k & _ & W) | [(_ & _ & H4 & _)
                       | [(_ & _ & _ & k & _ & W) | [(_ & _ & _ & _ & k & _ & W)
                       | (_ & _ & _ & _ & _ & H)]]]]];
      [apply winningCell_empty in W as [Hk He]
      | apply winningCell_empty in W as [Hk He]
      | exfalso; apply (Hfull 4%nat); [lia | exact H4]
      | destruct (emptyAmong_range board k (or_introl W)) as [Hk He]
      | destruct (emptyAmong_range board k (or_intror W)) as [Hk He]
      | exact H];
      exfalso; apply (Hfull k); assumption.
Qed.

(** O holds cells 3 and 4 and X holds 0 and 1: cell 5 wins and is taken
    before the block on cell 2. *)
Lemma heuristic_priorities_witness :
  exists i,
    HeuristicAI.getBestMove 0 ["X"; "X"; ""; "O"; "O"; ""; ""; ""; ""] "O" "X"
    = Some i /\
    winningCell ["X"; "X"; ""; "O"; "O"; ""; ""; ""; ""] "O" i.
Proof.
  apply (heuristic_priorities 0 ["X"; "X"; ""; "O"; "O"; ""; ""; ""; ""] "O" "X");
    [discriminate | discriminate |].
  exists 5%nat, [3; 4; 5]%nat. split; [cbn; tauto|].
  split; [reflexivity|]. split; [cbn; tauto|].
  intros j [<- | [<- | [<- | []]]] Hne; try reflexivity. congruence.
Defined.

(** ** The search: termination and independence of the bound *)

Lemma insert_empty_id (board : Board) (i : nat) :
  board !! i = Some "" -> <[i := ""]> board = board.
Proof. apply list_insert_id. Qed.

Lemma emptyCount_insert (board : Board) (i : nat) (m : string) :
  board !! i = Some "" -> m <> "" ->
  AI.emptyCount board = S (AI.emptyCount (<[i := m]> board)).
Proof.
  unfold AI.emptyCount. revert i.
  induction board as [|c rest IH]; intros i Hi Hm; [discriminate|].
  destruct i as [|i].
  - cbn in Hi. injection Hi as ->. cbn.
    apply String.eqb_neq in Hm. rewrite Hm. reflexivity.
  - cbn in Hi. cbn. destruct (String.eqb c ""); cbn; rewrite (IH i Hi Hm);
      reflexivity.
Qed.

Lemma emptyCount_insert_le (board : Board) (i : nat) (m : string) :
  board !! i = Some "" ->
  (AI.emptyCount (<[i := m]> board) <= AI.emptyCount board)%nat.
Proof.
  intros Hi. destruct (String.eqb_spec m "") as [-> | Hm].
  - rewrite insert_empty_id; trivial.
  - rewrite (emptyCount_insert board i m Hi Hm). lia.
Qed.

Lemma not_full_has_empty (board : Board) :
  AI.isBoardFull board = false ->
  exists i, (i < length board)%nat /\ cellIs board i "" = true.
Proof.
  unfold AI.isBoardFull.
  induction board as [|c rest IH]; [discriminate|].
  cbn [forallb]. destruct (String.eqb c "") eqn:E; cbn [negb andb].
  - intros _. exists 0%nat. split; [cbn; lia|].
    unfold cellIs. cbn. exact E.
  - intros H. destruct (IH H) as (i & Hi & Hc).
    exists (S i). split; [cbn; lia | exact Hc].
Qed.

Section Scan.
Variable board : Board.
Variable rec : nat -> option Score.
Variable comb : Score -> Score -> Score.
Variable init : Score.

Hypothesis rec_total :
  forall k, (k < 9)%nat -> cellIs board k "" = true ->
            exists z, rec k = Some (Num z).
Hypothesis comb_init : forall z, exists z', comb (Num z) init = Num z'.
Hypothesis comb_num : forall z z0, exists z', comb (Num z) (Num z0) = Num z'.

Lemma scan_total :
  (exists i, (i < 9)%nat /\ cellIs board i "" = true) ->
  exists z, for9 (scanBody board rec comb) init = Some (Num z).
Proof.
  intros (i0 & Hi0 & Hc0).
  assert (exists r,
             for9 (scanBody board rec comb) init = Some r /\
             ((exists z, r = Num z) \/
              (r = init /\
               forall j, (j < 9)%nat -> cellIs board j "" = false)))
    as (r & Hr & [[z ->] | [_ Hnone]]).
  { apply (for9_total (scanBody board rec comb)
             (fun k s => (exists z, s = Num z) \/
                         (s = init /\
                          forall j, (j < k)%nat -> cellIs board j "" = false))).
    - right. split; [reflexivity | intros j Hj; lia].
    - intros k a Hk IH. unfold scanBody.
      destruct (cellIs board k "") eqn:Hc.
      + destruct (rec_total k Hk Hc) as [z ->].
        destruct IH as [[z0 ->] | [-> _]].
        * destruct (comb_num z z0) as [z' ->]. eauto.
        * destruct (comb_init z) as [z' ->]. eauto.
      + exists a. split; [reflexivity|].
        destruct IH as [IH | [-> IH]]; [left; exact IH | right].
        split; [reflexivity|]. intros j Hj.
        destruct (Nat.eq_dec j k) as [-> | Hne]; [exact Hc | apply IH; lia]. }
  - exists z. exact Hr.
  - rewrite (Hnone i0 Hi0) in Hc0. discriminate.
Qed.
End Scan.

Lemma fold_step_mono {A : Type} (body body' : A -> nat -> option A)
      (l : list nat) :
  (forall a i b, body a i = Some b -> body' a i = Some b) ->
  forall acc r,
    fold_left (for9_step body) l acc = Some r ->
    fold_left (for9_step body') l acc = Some r.
Proof.
  intros Hb. induction l as [|i l IH]; intros acc r; [trivial|].
  cbn [fold_left]. destruct acc as [a|]; cbn [for9_step].
  - destruct (body a i) as [b|] eqn:E.
    + rewrite (Hb a i b E). apply IH.
    + rewrite fold_step_None. discriminate.
  - rewrite fold_step_None. discriminate.
Qed.

Lemma minimax_fuel_mono (computerMarker playerMarker : string) (fuel : nat) :
  forall (fuel' : nat) (board : Board) (depth : Z) (isMaximizing : bool)
         (s : Score),
    (fuel <= fuel')%nat ->
    AI.minimax_fuel fuel board depth isMaximizing computerMarker playerMarker
    = Some s ->
    AI.minimax_fuel fuel' board depth isMaximizing computerMarker playerMarker
    = Some s.
Proof.
  induction fuel as [|fuel IH]; intros fuel' board depth isMaximizing s Hle;
    [discriminate|].
  destruct fuel' as [|fuel']; [lia|].
  cbn [AI.minimax_fuel].
  destruct (_ =? 10); [trivial|].
  destruct (_ =? -10); [trivial|].
  destruct (AI.isBoardFull board); [trivial|].
  destruct isMaximizing; unfold for9; apply fold_step_mono;
    intros a i b; (destruct (cellIs board i ""); [|trivial]);
    (destruct (AI.minimax_fuel fuel _ _ _ _ _) as [sc|] eqn:E; [|discriminate]);
    rewrite (IH fuel' _ _ _ sc ltac:(lia) E); trivial.
Qed.

Lemma score_max_num (z : Z) :
  (exists z', score_max (Num z) NegInfinity = Num z') /\
  (forall z0, exists z', score_max (Num z) (Num z0) = Num z').
Proof.
  split; [eexists; reflexivity|].
  intros z0. unfold score_max, score_gt. destruct (z <? z0); eauto.
Qed.

Lemma score_min_num (z : Z) :
  (exists z', score_min (Num z) PosInfinity = Num z') /\
  (forall z0, exists z', score_min (Num z) (Num z0) = Num z').
Proof.
  split; [eexists; reflexivity|].
  intros z0. unfold score_min, score_gt. destruct (z0 <? z); eauto.
Qed.

Lemma moverEmpty_le (isMaximizing : bool) (computerMarker playerMarker : string) :
  (moverEmpty isMaximizing computerMarker playerMarker <= 1)%nat.
Proof. unfold moverEmpty. destruct (String.eqb _ ""); lia. Qed.

(** The measure that falls with every nested call. *)
Lemma measure_falls (board : Board) (i : nat) (isMaximizing : bool)
      (computerMarker playerMarker : string) :
  computerMarker <> "" \/ playerMarker <> "" ->
  board !! i = Some "" ->
  let mover := if isMaximizing then computerMarker else playerMarker in
  (2 * AI.emptyCount (<[i := mover]> board)
   + moverEmpty (negb isMaximizing) computerMarker playerMarker
   < 2 * AI.emptyCount board
     + moverEmpty isMaximizing computerMarker playerMarker)%nat.
Proof.
  intros Hm Hi mover. subst mover. unfold moverEmpty.
  destruct isMaximizing; cbn [negb];
    destruct (String.eqb_spec computerMarker "") as [Hc | Hc];
    destruct (String.eqb_spec playerMarker "") as [Hp | Hp];
    try (destruct Hm; contradiction);
    try (rewrite Hc, insert_empty_id by exact Hi; lia);
    try (rewrite Hp, insert_empty_id by exact Hi; lia);
    try (rewrite (emptyCount_insert board i computerMarker Hi Hc); lia);
    try (rewrite (emptyCount_insert board i playerMarker Hi Hp); lia).
Qed.

(** With markers that are not both the empty string the recursion ends,
    and on an array of at most nine cells its value is an integer. *)
Lemma minimax_fuel_enough (computerMarker playerMarker : string) (fuel : nat) :
  computerMarker <> "" \/ playerMarker <> "" ->
  forall (board : Board) (depth : Z) (isMaximizing : bool),
    (length board <= 9)%nat ->
    (2 * AI.emptyCount board
     + moverEmpty isMaximizing computerMarker playerMarker < fuel)%nat ->
    exists z,
      AI.minimax_fuel fuel board depth isMaximizing computerMarker playerMarker
      = Some (Num z).
Proof.
  intros Hm.
  induction fuel as [|fuel IH]; intros board depth isMaximizing Hlen Hfuel;
    [lia|].
  cbn [AI.minimax_fuel].
  destruct (_ =? 10); [eauto|].
  destruct (_ =? -10); [eauto|].
  destruct (AI.isBoardFull board) eqn:Hfull; [eauto|].
  destruct (not_full_has_empty board Hfull) as (i0 & Hi0 & Hc0).
  assert (Hrec : forall k, cellIs board k "" = true ->
            forall d,
            exists z,
              AI.minimax_fuel fuel
                (<[k := if isMaximizing then computerMarker else playerMarker]>
                   board) d (negb isMaximizing) computerMarker playerMarker
              = Some (Num z)).
  { intros k Hc d. apply cellIs_true in Hc. apply IH.
    - rewrite length_insert. exact Hlen.
    - pose proof (measure_falls board k isMaximizing _ _ Hm Hc) as Hlt.
      cbv zeta in Hlt. lia. }
  destruct isMaximizing.
  - apply (scan_total board
             (fun i => AI.minimax_fuel fuel (<[i := computerMarker]> board)
                                       (depth + 1) false
                                       computerMarker playerMarker)
             score_max NegInfinity).
    + intros k _ Hc. apply (Hrec k Hc).
    + intros z. apply score_max_num.
    + intros z. apply score_max_num.
    + exists i0. split; [lia | exact Hc0].
  - apply (scan_total board
             (fun i => AI.minimax_fuel fuel (<[i := playerMarker]> board)
                                       (depth + 1) true
                                       computerMarker playerMarker)
             score_min PosInfinity).
    + intros k _ Hc. apply (Hrec k Hc).
    + intros z. apply score_min_num.
    + intros z. apply score_min_num.
    + exists i0. split; [lia | exact Hc0].
Qed.

(** [minimax] as called returns: with markers that are not both the
    empty string the bound [AI.enough] is never reached. *)
Lemma minimax_returns (board : Board) (depth : Z) (isMaximizing : bool)
      (computerMarker playerMarker : string) :
  computerMarker <> "" \/ playerMarker <> "" ->
  (length board <= 9)%nat ->
  exists z,
    AI.minimax board depth isMaximizing computerMarker playerMarker
    = Returned (Num z) /\
    forall fuel, (AI.enough board <= fuel)%nat ->
                 AI.minimax_fuel fuel board depth isMaximizing
                                 computerMarker playerMarker = Some (Num z).
Proof.
  intros Hm Hlen.
  pose proof (moverEmpty_le isMaximizing computerMarker playerMarker) as Hme.
  destruct (minimax_fuel_enough computerMarker playerMarker (AI.enough board)
              Hm board depth isMaximizing Hlen) as [z Hz].
  { unfold AI.enough. lia. }
  exists z. split.
  - unfold AI.minimax. rewrite Hz. reflexivity.
  - intros fuel Hfuel. apply (minimax_fuel_mono _ _ _ _ _ _ _ _ Hfuel Hz).
Qed.

(** ** The selection loop *)

Lemma getBestMove_fuel_argmax (fuel : nat) (board : Board)
      (computerMarker playerMarker : string) (sc : nat -> Z) :
  (forall k, (k < 9)%nat -> cellIs board k "" = true ->
             AI.minimax_fuel fuel (<[k := computerMarker]> board) 0 false
                             computerMarker playerMarker
             = Some (Num (sc k))) ->
  (exists i, (i < 9)%nat /\ cellIs board i "" = true) ->
  exists best,
    AI.getBestMove_fuel fuel board computerMarker playerMarker
    = Some (Some best) /\
    bestSoFar board sc 9 (Num (sc best), Some best).
Proof.
  intros Hsc (i0 & Hi0 & Hc0). unfold AI.getBestMove_fuel.
  match goal with
  | |- exists _, match for9 ?body ?init with _ => _ end = _ /\ _ =>
    assert (exists r, for9 body init = Some r /\ bestSoFar board sc 9 r)
      as ([bs [best|]] & -> & Hr);
      [apply (for9_total body (bestSoFar board sc)) | |]
  end.
  - split; [reflexivity | intros j Hj; lia].
  - intros k [bs [best|]] Hk IH; cbn [bestSoFar] in IH.
    + destruct IH as (Hb & Hcb & -> & Hbest).
      destruct (cellIs board k "") eqn:Hc.
      * rewrite (Hsc k Hk Hc). cbn [score_gt].
        destruct (Z.ltb_spec (sc best) (sc k)) as [Hlt | Hge];
          eexists; (split; [reflexivity|]); cbn [bestSoFar];
          (split; [lia|]); (split; [assumption|]); (split; [reflexivity|]);
          intros j Hj Hcj;
          (destruct (Nat.eq_dec j k) as [-> | Hne];
           [lia | destruct (Hbest j ltac:(lia) Hcj); lia]).
      * eexists; split; [reflexivity|]. cbn [bestSoFar].
        split; [lia|]. split; [assumption|]. split; [reflexivity|].
        intros j Hj Hcj. destruct (Nat.eq_dec j k) as [-> | Hne];
          [congruence | apply Hbest; [lia | assumption]].
    + destruct IH as (-> & Hnone).
      destruct (cellIs board k "") eqn:Hc.
      * rewrite (Hsc k Hk Hc). cbn [score_gt].
        eexists; split; [reflexivity|]. cbn [bestSoFar].
        split; [lia|]. split; [assumption|]. split; [reflexivity|].
        intros j Hj Hcj. destruct (Nat.eq_dec j k) as [-> | Hne]; [lia|].
        rewrite (Hnone j) in Hcj by lia. discriminate.
      * eexists; split; [reflexivity|]. cbn [bestSoFar].
        split; [reflexivity|]. intros j Hj.
        destruct (Nat.eq_dec j k) as [-> | Hne]; [exact Hc | apply Hnone; lia].
  - exists best. split; [reflexivity|].
    destruct Hr as (Hb & Hcb & -> & Hbest). cbn [bestSoFar]. auto.
  - destruct Hr as [_ Hnone]. rewrite (Hnone i0 Hi0) in Hc0. discriminate.
Qed.

Lemma distinct_not_both_empty (computerMarker playerMarker : string) :
  computerMarker <> playerMarker ->
  computerMarker <> "" \/ playerMarker <> "".
Proof.
  intros Hne. destruct (String.eqb_spec computerMarker "") as [-> | Hc];
    [right; congruence | left; exact Hc].
Qed.

(** The score of a candidate cell is the same whether the search runs
    with the bound of the board or with the bound of the board after the
    move. *)
Lemma candidate_score (board : Board) (computerMarker playerMarker : string)
      (k : nat) :
  computerMarker <> "" \/ playerMarker <> "" ->
  (length board <= 9)%nat ->
  board !! k = Some "" ->
  exists z,
    AI.minimax_fuel (AI.enough board) (<[k := computerMarker]> board) 0 false
                    computerMarker playerMarker = Some (Num z) /\
    AI.minimax (<[k := computerMarker]> board) 0 false
               computerMarker playerMarker = Returned (Num z).
Proof.
  intros Hm Hlen Hk.
  pose proof (emptyCount_insert_le board k computerMarker Hk) as Hle.
  pose proof (moverEmpty_le false computerMarker playerMarker) as Hme.
  destruct (minimax_fuel_enough computerMarker playerMarker
              (AI.enough (<[k := computerMarker]> board)) Hm
              (<[k := computerMarker]> board) 0 false) as [z Hz].
  { rewrite length_insert. exact Hlen. }
  { unfold AI.enough. lia. }
  exists z. split.
  - assert (Hfuel : (AI.enough (<[k := computerMarker]> board)
                     <= AI.enough board)%nat) by (unfold AI.enough; lia).
    apply (minimax_fuel_mono _ _ _ _ _ _ _ _ Hfuel Hz).
  - unfold AI.minimax. rewrite Hz. reflexivity.
Qed.

(** C2. On a board with an empty cell and with two different markers the
    search returns an empty cell of [0..8] whose score, the value of the
    recursion after the computer's move there, is not below the score of
    any empty cell and is strictly above the score of every empty cell
    of lower index: the highest score, and among equals the first in
    ascending order. *)
Theorem getBestMove_argmax (board : Board)
        (computerMarker playerMarker : string) :
  (length board <= 9)%nat ->
  computerMarker <> playerMarker ->
  (exists i, board !! i = Some "") ->
  exists best bestScore,
    AI.getBestMove board computerMarker playerMarker = Returned (Some best) /\
    (best < 9)%nat /\ board !! best = Some "" /\
    AI.minimax (<[best := computerMarker]> board) 0 false
               computerMarker playerMarker = Returned (Num bestScore) /\
    forall j, board !! j = Some "" ->
      exists s,
        AI.minimax (<[j := computerMarker]> board) 0 false
                   computerMarker playerMarker = Returned (Num s) /\
        s <= bestScore /\ ((j < best)%nat -> s < bestScore).
Proof.
  intros Hlen Hne (i0 & Hi0).
  pose proof (distinct_not_both_empty _ _ Hne) as Hm.
  set (sc := fun k =>
               scoreValue (AI.minimax_fuel (AI.enough board)
                                           (<[k := computerMarker]> board) 0 false
                                           computerMarker playerMarker)).
  assert (Hsc : forall k, board !! k = Some "" ->
            AI.minimax_fuel (AI.enough board) (<[k := computerMarker]> board)
                            0 false computerMarker playerMarker
            = Some (Num (sc k)) /\
            AI.minimax (<[k := computerMarker]> board) 0 false
                       computerMarker playerMarker = Returned (Num (sc k))).
  { intros k Hk.
    destruct (candidate_score board computerMarker playerMarker k Hm Hlen Hk)
      as (z & Hz & Hw).
    unfold sc. rewrite Hz. cbn [scoreValue]. auto. }
  assert (Hrange : forall k, board !! k = Some "" -> (k < 9)%nat).
  { intros k Hk. apply lookup_lt_Some in Hk. lia. }
  destruct (getBestMove_fuel_argmax (AI.enough board) board
              computerMarker playerMarker sc)
    as (best & Hbest & Hb & Hcb & _ & Hmax).
  { intros k _ Hc. apply cellIs_true in Hc. apply Hsc. exact Hc. }
  { exists i0. split; [auto | apply cellIs_true; exact Hi0]. }
  apply cellIs_true in Hcb.
  exists best, (sc best).
  split; [unfold AI.getBestMove; rewrite Hbest; reflexivity|].
  split; [exact Hb|]. split; [exact Hcb|].
  split; [apply Hsc; exact Hcb|].
  intros j Hj. exists (sc j).
  split; [apply Hsc; exact Hj|].
  apply Hmax; [auto | apply cellIs_true; exact Hj].
Qed.

(** After X on 0 and 4 and O on 8 every reply but cell 2 and cell 6
    loses, these two draw, and cell 2 comes first. *)
Lemma getBestMove_argmax_witness :
  exists best bestScore,
    AI.getBestMove ["X"; ""; ""; ""; "X"; ""; ""; ""; "O"] "O" "X"
    = Returned (Some best) /\
    (best < 9)%nat /\
    ["X"; ""; ""; ""; "X"; ""; ""; ""; "O"] !! best = Some "" /\
    AI.minimax (<[best := "O"]> ["X"; ""; ""; ""; "X"; ""; ""; ""; "O"])
               0 false "O" "X" = Returned (Num bestScore) /\
    forall j, ["X"; ""; ""; ""; "X"; ""; ""; ""; "O"] !! j = Some "" ->
      exists s,
        AI.minimax (<[j := "O"]> ["X"; ""; ""; ""; "X"; ""; ""; ""; "O"])
                   0 false "O" "X" = Returned (Num s) /\
        s <= bestScore /\ ((j < best)%nat -> s < bestScore).
Proof.
  apply (getBestMove_argmax ["X"; ""; ""; ""; "X"; ""; ""; ""; "O"] "O" "X").
  - cbn. lia.
  - discriminate.
  - exists 1%nat. reflexivity.
Defined.


(** ** Games against the search *)

Lemma reset_nine (board : Board) :
  (length board <= 9)%nat -> Gameboard.reset board = Gameboard.initial.
Proof.
  intros H.
  do 10 (destruct board as [|? board]; [reflexivity|]).
  cbn in H. lia.
Qed.

Lemma initialize_versusComputer (name1 name2 : string)
      (st : GameController.GameState) :
  (length (GameController.board st) <= 9)%nat ->
  GameController.initialize name1 name2 true st
  = versusComputer (GameController.orDefault name1 "Player 1").
Proof.
  intros H. unfold GameController.initialize, versusComputer.
  rewrite (reset_nine _ H). reflexivity.
Qed.

(** All games from the empty board, whatever the human player is
    called. *)
Lemma safe_versusComputer (name : string) : safe 5 (versusComputer name) = true.
Proof. vm_cast_no_check (eq_refl true). Qed.

Section Games.
Import GameController.

Lemma safe_notBeaten (n : nat) (st : GameState) :
  safe n st = true -> notBeaten st = true.
Proof. destruct n; cbn [safe]; destruct (notBeaten st); trivial. Qed.

Lemma handleCellClick_rejected (index : Z) (st : GameState) :
  gameOver st = true \/
  notEmptyString (Gameboard.getCell index (board st)) = true ->
  handleCellClick index st = Returned st.
Proof.
  intros H. unfold handleCellClick.
  destruct (gameOver st) eqn:Hover.
  - rewrite (makeMove_over index st Hover). reflexivity.
  - destruct H as [H | H]; [discriminate|].
    apply notEmptyString_true in H.
    rewrite (makeMove_taken index st Hover H). reflexivity.
Qed.

Lemma empty_cell_in_range (index : Z) (board : Board) :
  notEmptyString (Gameboard.getCell index board) = false -> 0 <= index < 9.
Proof.
  unfold Gameboard.getCell.
  destruct (Z.leb_spec 0 index), (Z.ltb_spec index 9); cbn;
    try discriminate. lia.
Qed.

Lemma safe_play (clicks : list Z) :
  forall (n : nat) (st : GameState),
    safe n st = true ->
    exists st', play clicks st = Returned st' /\ notBeaten st' = true.
Proof.
  induction clicks as [|index rest IH]; intros n st Hsafe.
  - exists st. split; [reflexivity | exact (safe_notBeaten n st Hsafe)].
  - cbn [play].
    destruct (gameOver st) eqn:Hover.
    { rewrite handleCellClick_rejected by (left; exact Hover).
      apply (IH n st Hsafe). }
    destruct (notEmptyString (Gameboard.getCell index (board st))) eqn:Hcell.
    { rewrite handleCellClick_rejected by (right; exact Hcell).
      apply (IH n st Hsafe). }
    pose proof (empty_cell_in_range _ _ Hcell) as Hrange.
    destruct n as [|n]; cbn [safe] in Hsafe; rewrite Hover in Hsafe;
      destruct (notBeaten st); try discriminate.
    rewrite forallb_forall in Hsafe.
    specialize (Hsafe (Z.to_nat index)).
    rewrite Z2Nat.id, Hcell in Hsafe by lia.
    destruct (handleCellClick index st) as [st1|e].
    + apply (IH n st1). apply Hsafe. apply in_seq. lia.
    + discriminate Hsafe. apply in_seq. lia.
Qed.

Lemma refEq_true (r1 r2 : option PlayerRef) :
  refEq r1 r2 = true <-> r1 = r2.
Proof.
  destruct r1 as [[|]|], r2 as [[|]|]; cbn; split; congruence.
Qed.

Lemma notBeaten_spec (st : GameState) :
  notBeaten st = true ->
  winner st <> Some P1 /\
  ~ occupiesTriple (board st) "X" /\
  (gameOver st = true ->
   winner st = Some P2 \/ (winner st = None /\ boardFull (board st))).
Proof.
  unfold notBeaten. intros H.
  apply andb_true_iff in H as [H Hend]. apply andb_true_iff in H as [Hw Hx].
  split; [|split].
  - intros E. apply refEq_true in E. rewrite E in Hw. discriminate.
  - intros E. apply checkWinner_spec in E. rewrite E in Hx. discriminate.
  - intros Hover. rewrite Hover in Hend.
    apply orb_true_iff in Hend as [E | E].
    + left. apply refEq_true. exact E.
    + right. apply andb_true_iff in E as [E Hfull].
      split; [apply refEq_true; exact E | apply isBoardFull_spec; exact Hfull].
Qed.
End Games.

(** C1. A game against the computer started by [initialize] on the
    board of [Gameboard] (nine cells; at most nine is all the proof needs), the human (player 1, X) clicking whatever cells in
    whatever order and the computer (player 2, O) answering each
    accepted click with the cell [AI.getBestMove] returns: no call
    throws, player 1 is never the winner, X never holds a triple, and
    once the game is over either player 2 has won or the board is full
    with no winner. *)
Theorem computer_never_loses (name1 name2 : string)
        (st0 : GameController.GameState) (clicks : list Z) :
  (length (GameController.board st0) <= 9)%nat ->
  exists st,
    GameController.play clicks (GameController.initialize name1 name2 true st0)
    = Returned st /\
    GameController.winner st <> Some P1 /\
    ~ occupiesTriple (GameController.board st) "X" /\
    (GameController.gameOver st = true ->
     GameController.winner st = Some P2 \/
     (GameController.winner st = None /\ boardFull (GameController.board st))).
Proof.
  intros Hlen. rewrite (initialize_versusComputer name1 name2 st0 Hlen).
  destruct (safe_play clicks 5 _
              (safe_versusComputer (GameController.orDefault name1 "Player 1")))
    as (st & Hplay & Hst).
  exists st. split; [exact Hplay | apply notBeaten_spec; exact Hst].
Qed.

(** The human takes a corner, the opposite corner and two edges, leaving
    the diagonal 2-4-6 to the computer, which wins on it. *)
Lemma computer_never_loses_witness :
  exists st,
    GameController.play [0; 8; 7; 3]
      (GameController.initialize "Ann" "" true GameController.loaded)
    = Returned st /\
    GameController.winner st <> Some P1 /\
    ~ occupiesTriple (GameController.board st) "X" /\
    (GameController.gameOver st = true ->
     GameController.winner st = Some P2 \/
     (GameController.winner st = None /\ boardFull (GameController.board st))).
Proof.
  apply (computer_never_loses "Ann" "" GameController.loaded [0; 8; 7; 3]).
  cbn. lia.
Defined.



(** * Further properties of the code *)

(** ** Gameboard: reset, writes and the full board *)

Lemma reset_shape (board : Board) :
  Gameboard.reset board = (Gameboard.initial ++ drop 9 board)%list.
Proof.
  do 9 (destruct board as [|? board]; [reflexivity|]). reflexivity.
Qed.

(** X1. [reset] empties the cells 0..8 of whatever array it is given
    and keeps what lies beyond them, so the array of nine cells becomes
    the empty board, every one of its cells reads as the empty string
    and [isFull] answers [false]. *)
Theorem reset_clears (board : Board) :
  Gameboard.reset board = (Gameboard.initial ++ drop 9 board)%list /\
  Gameboard.isFull (Gameboard.reset board) = false /\
  (forall index, 0 <= index < 9 ->
                 Gameboard.getCell index (Gameboard.reset board)
                 = Gameboard.Cell "").
Proof.
  rewrite reset_shape. split; [reflexivity|]. split; [reflexivity|].
  intros index Hi. unfold Gameboard.getCell.
  destruct (Z.leb_spec 0 index), (Z.ltb_spec index 9); try lia. cbn [andb].
  assert (Hn : (Z.to_nat index < 9)%nat) by lia.
  destruct (Z.to_nat index) as [|[|[|[|[|[|[|[|[|n]]]]]]]]]; try reflexivity.
  lia.
Qed.

Lemma reset_clears_witness :
  Gameboard.getCell 8
    (Gameboard.reset ["X"; "O"; "X"; "O"; "X"; "O"; "O"; "X"; "O"])
  = Gameboard.Cell "".
Proof.
  apply (reset_clears ["X"; "O"; "X"; "O"; "X"; "O"; "O"; "X"; "O"]). lia.
Defined.

Lemma countMark_insert_other (board : Board) (i : nat) (old new m : string) :
  board !! i = Some old -> old <> m -> new <> m ->
  countMark m (<[i := new]> board) = countMark m board.
Proof.
  unfold countMark. revert i.
  induction board as [|c rest IH]; intros i Hi Ho Hn; [discriminate|].
  destruct i as [|i].
  - cbn in Hi. injection Hi as ->. cbn.
    apply String.eqb_neq in Ho. apply String.eqb_neq in Hn.
    rewrite Ho, Hn. reflexivity.
  - cbn in Hi. cbn. pose proof (IH i Hi Ho Hn) as E.
    destruct (String.eqb c m); cbn [length]; [f_equal|]; exact E.
Qed.

Lemma countMark_insert_new (board : Board) (i : nat) (old m : string) :
  board !! i = Some old -> old <> m ->
  countMark m (<[i := m]> board) = S (countMark m board).
Proof.
  unfold countMark. revert i.
  induction board as [|c rest IH]; intros i Hi Ho; [discriminate|].
  destruct i as [|i].
  - cbn in Hi. injection Hi as ->. cbn.
    apply String.eqb_neq in Ho. rewrite Ho, String.eqb_refl. reflexivity.
  - cbn in Hi. cbn. pose proof (IH i Hi Ho) as E.
    destruct (String.eqb c m); cbn [length]; [f_equal|]; exact E.
Qed.

Lemma setCell_success_inv (index : Z) (marker : string) (board : Board) :
  snd (Gameboard.setCell index marker board) = true ->
  0 <= index < 9 /\ board !! Z.to_nat index = Some "" /\
  fst (Gameboard.setCell index marker board)
  = <[Z.to_nat index := marker]> board.
Proof.
  unfold Gameboard.setCell.
  destruct (Z.leb_spec 0 index), (Z.ltb_spec index 9); cbn [andb];
    try discriminate.
  destruct (cellIs board (Z.to_nat index) "") eqn:Hc; [|discriminate].
  apply cellIs_true in Hc. intros _. cbn. auto with zarith.
Qed.

(** X2. A cell is written once: after a successful [setCell] with a
    marker that is not the empty string, [getCell] reads that marker
    back, the array has one empty cell less, and every further [setCell]
    on that index fails and changes nothing. *)
Theorem setCell_write_once (index : Z) (marker marker' : string) (board : Board) :
  marker <> "" ->
  snd (Gameboard.setCell index marker board) = true ->
  let board' := fst (Gameboard.setCell index marker board) in
  Gameboard.getCell index board' = Gameboard.Cell marker /\
  S (countMark "" board') = countMark "" board /\
  Gameboard.setCell index marker' board' = (board', false).
Proof.
  intros Hm Hok board'. subst board'.
  destruct (setCell_success_inv index marker board Hok) as (Hi & Hc & ->).
  assert (Hread : <[Z.to_nat index := marker]> board !! Z.to_nat index
                  = Some marker).
  { apply list_lookup_insert_eq. apply lookup_lt_is_Some. eauto. }
  split; [|split].
  - unfold Gameboard.getCell.
    destruct (Z.leb_spec 0 index), (Z.ltb_spec index 9); try lia.
    cbn [andb]. rewrite Hread. reflexivity.
  - symmetry. apply (emptyCount_insert board _ marker Hc Hm).
  - unfold Gameboard.setCell, cellIs. rewrite Hread.
    apply String.eqb_neq in Hm. rewrite Hm, !andb_false_r. reflexivity.
Qed.

Lemma setCell_write_once_witness :
  Gameboard.getCell 4 (fst (Gameboard.setCell 4 "X" Gameboard.initial))
  = Gameboard.Cell "X" /\
  S (countMark "" (fst (Gameboard.setCell 4 "X" Gameboard.initial)))
  = countMark "" Gameboard.initial /\
  Gameboard.setCell 4 "O" (fst (Gameboard.setCell 4 "X" Gameboard.initial))
  = (fst (Gameboard.setCell 4 "X" Gameboard.initial), false).
Proof.
  apply (setCell_write_once 4 "X" "O" Gameboard.initial);
    [discriminate | reflexivity].
Defined.

Lemma full_no_empty (board : Board) (i : nat) :
  Gameboard.isFull board = true -> board !! i <> Some "".
Proof.
  intros Hfull Hi. apply (proj1 (isBoardFull_spec board)) in Hfull.
  exact (Hfull i "" Hi eq_refl).
Qed.

(** X3. A full board takes no more marks: [setCell] fails for every
    index and marker and leaves the array as it is, and [makeMove]
    reports failure and leaves the whole state as it is. *)
Theorem full_board_rejects (index : Z) (marker : string)
        (st : GameController.GameState) :
  Gameboard.isFull (GameController.board st) = true ->
  Gameboard.setCell index marker (GameController.board st)
  = (GameController.board st, false) /\
  exists reason,
    GameController.makeMove index st
    = Returned (st, Result.mk false (Some reason) None None).
Proof.
  intros Hfull.
  assert (Hc : cellIs (GameController.board st) (Z.to_nat index) "" = false).
  { apply cellIs_false. apply full_no_empty. exact Hfull. }
  split.
  - unfold Gameboard.setCell. rewrite Hc, andb_false_r. reflexivity.
  - destruct (GameController.gameOver st) eqn:Hover.
    + eexists. apply makeMove_over. exact Hover.
    + eexists. apply makeMove_taken; [exact Hover|].
      unfold Gameboard.getCell.
      destruct ((0 <=? index) && (index <? 9)); [|discriminate].
      apply cellIs_false in Hc.
      destruct (GameController.board st !! Z.to_nat index) as [c|];
        [congruence | discriminate].
Qed.

Lemma full_board_rejects_witness :
  Gameboard.setCell 0 "X" ["X"; "O"; "X"; "X"; "O"; "O"; "O"; "X"; "X"]
  = (["X"; "O"; "X"; "X"; "O"; "O"; "O"; "X"; "X"], false) /\
  exists reason,
    GameController.makeMove 0
      (GameController.withBoard GameController.loaded
         ["X"; "O"; "X"; "X"; "O"; "O"; "O"; "X"; "X"])
    = Returned (GameController.withBoard GameController.loaded
                  ["X"; "O"; "X"; "X"; "O"; "O"; "O"; "X"; "X"],
                Result.mk false (Some reason) None None).
Proof.
  apply (full_board_rejects 0 "X"
           (GameController.withBoard GameController.loaded
              ["X"; "O"; "X"; "X"; "O"; "O"; "O"; "X"; "X"])).
  reflexivity.
Defined.

(** ** makeMove: the accepted move *)

Section Accepted.
Import GameController.

Lemma notEmptyString_false (v : Gameboard.CellValue) :
  notEmptyString v = false -> v = Gameboard.Cell "".
Proof.
  destruct v as [c| |]; cbn; try discriminate.
  intros H. apply negb_false_iff, String.eqb_eq in H. congruence.
Qed.

Lemma getCell_Cell_inv (index : Z) (board : Board) (c : string) :
  Gameboard.getCell index board = Gameboard.Cell c ->
  0 <= index < 9 /\ board !! Z.to_nat index = Some c.
Proof.
  unfold Gameboard.getCell.
  destruct (Z.leb_spec 0 index), (Z.ltb_spec index 9); cbn [andb];
    try discriminate.
  destruct (board !! Z.to_nat index); [|discriminate].
  intros [= ->]. auto with zarith.
Qed.

Lemma makeMove_step (index : Z) (st : GameState) (m : string) :
  gameOver st = false ->
  Gameboard.getCell index (board st) = Gameboard.Cell "" ->
  markerOf st (currentPlayer st) = Returned m ->
  makeMove index st
  = Returned (accepted st (<[Z.to_nat index := m]> (board st)) m).
Proof.
  intros Hover Hcell Hm. unfold makeMove. rewrite Hover, Hcell, Hm.
  cbn [notEmptyString String.eqb negb mbind outcome_bind].
  destruct (getCell_Cell_inv _ _ _ Hcell) as [Hi Hc].
  assert (Hset : fst (Gameboard.setCell index m (board st))
                 = <[Z.to_nat index := m]> (board st)).
  { unfold Gameboard.setCell.
    destruct (Z.leb_spec 0 index), (Z.ltb_spec index 9); try lia.
    apply cellIs_true in Hc. rewrite Hc. reflexivity. }
  rewrite Hset. unfold checkWinner.
  change (markerOf (withBoard st ?b) (currentPlayer (withBoard st ?b)))
    with (markerOf st (currentPlayer st)).
  rewrite Hm. cbn [mbind outcome_bind]. unfold accepted, AI.checkWinner.
  cbn [board withBoard currentPlayer winner].
  destruct (existsb _ winConditions); [reflexivity|].
  destruct (Gameboard.isFull _); reflexivity.
Qed.

Lemma makeMove_success_inv (index : Z) (st st' : GameState) (r : Result.t) :
  makeMove index st = Returned (st', r) ->
  Result.success r = true ->
  gameOver st = false /\
  Gameboard.getCell index (board st) = Gameboard.Cell "" /\
  exists m, markerOf st (currentPlayer st) = Returned m /\
            (st', r) = accepted st (<[Z.to_nat index := m]> (board st)) m.
Proof.
  intros Hm Hs.
  destruct (gameOver st) eqn:Hover.
  { rewrite (makeMove_over index st Hover) in Hm.
    injection Hm as <- <-. discriminate. }
  destruct (notEmptyString (Gameboard.getCell index (board st))) eqn:Hcell.
  { apply notEmptyString_true in Hcell.
    rewrite (makeMove_taken index st Hover Hcell) in Hm.
    injection Hm as <- <-. discriminate. }
  apply notEmptyString_false in Hcell.
  split; [reflexivity|]. split; [exact Hcell|].
  destruct (markerOf st (currentPlayer st)) as [m|e] eqn:Em.
  - exists m. split; [reflexivity|].
    rewrite (makeMove_step index st m Hover Hcell Em) in Hm. congruence.
  - unfold makeMove in Hm. rewrite Hover, Hcell, Em in Hm. discriminate.
Qed.

Lemma ready_markerOf (st : GameState) :
  ready st -> exists m, markerOf st (currentPlayer st) = Returned m.
Proof.
  intros (H1 & H2 & Hc). unfold markerOf.
  destruct (currentPlayer st) as [[|]|]; [| |contradiction].
  - destruct (player1 st); [eauto | contradiction].
  - destruct (player2 st); [eauto | contradiction].
Qed.

Lemma ready_switchPlayer (st : GameState) :
  ready st -> currentPlayer (switchPlayer st) = opponentOf (currentPlayer st).
Proof.
  intros (H1 & H2 & Hc). unfold switchPlayer, refPlayer1, refPlayer2.
  cbn [currentPlayer].
  destruct (player1 st); [|contradiction].
  destruct (player2 st); [|contradiction].
  destruct (currentPlayer st) as [[|]|]; [| |contradiction]; reflexivity.
Qed.
End Accepted.

(** X4. What an accepted move does.  On a game in progress with both
    players set up, [makeMove] on an empty cell writes the marker of the
    player to move into that cell and nothing else, keeps the players and
    the mode, and then: ends the game with that player as winner when
    the marker now holds a triple; otherwise ends it without changing
    the winner when the board is now full; otherwise hands the turn to
    the other player.  The result reports the same. *)
Theorem makeMove_accepted (index : Z) (st : GameController.GameState) :
  ready st ->
  GameController.gameOver st = false ->
  Gameboard.getCell index (GameController.board st) = Gameboard.Cell "" ->
  exists m st' r,
    GameController.markerOf st (GameController.currentPlayer st) = Returned m /\
    GameController.makeMove index st = Returned (st', r) /\
    Result.success r = true /\
    GameController.board st' = <[Z.to_nat index := m]> (GameController.board st) /\
    GameController.player1 st' = GameController.player1 st /\
    GameController.player2 st' = GameController.player2 st /\
    GameController.vsComputer st' = GameController.vsComputer st /\
    GameController.computerMarker st' = GameController.computerMarker st /\
    ((occupiesTriple (GameController.board st') m /\
      GameController.gameOver st' = true /\
      GameController.winner st' = GameController.currentPlayer st /\
      GameController.currentPlayer st' = GameController.currentPlayer st /\
      r = Result.mk true None (Some true)
                    (Some (GameController.currentPlayer st))) \/
     (~ occupiesTriple (GameController.board st') m /\
      boardFull (GameController.board st') /\
      GameController.gameOver st' = true /\
      GameController.winner st' = GameController.winner st /\
      GameController.currentPlayer st' = GameController.currentPlayer st /\
      r = Result.mk true None (Some true) (Some None)) \/
     (~ occupiesTriple (GameController.board st') m /\
      ~ boardFull (GameController.board st') /\
      GameController.gameOver st' = false /\
      GameController.winner st' = GameController.winner st /\
      GameController.currentPlayer st'
      = opponentOf (GameController.currentPlayer st) /\
      r = Result.mk true None (Some false) None)).
Proof.
  intros Hready Hover Hcell.
  destruct (ready_markerOf st Hready) as [m Hm].
  pose proof (makeMove_step index st m Hover Hcell Hm) as Hstep.
  unfold accepted in Hstep.
  destruct (AI.checkWinner (<[Z.to_nat index := m]> (GameController.board st)) m)
    eqn:Hwin;
    [|destruct (Gameboard.isFull
                  (<[Z.to_nat index := m]> (GameController.board st)))
        eqn:Hfull];
    eexists m, _, _; (split; [exact Hm|]); (split; [exact Hstep|]);
    cbn; repeat (split; [reflexivity|]).
  - left. apply checkWinner_spec in Hwin. auto.
  - right; left.
    split; [intros H; apply checkWinner_spec in H; congruence|].
    split; [apply isBoardFull_spec; exact Hfull | auto].
  - right; right.
    split; [intros H; apply checkWinner_spec in H; congruence|].
    split; [intros H; apply isBoardFull_spec in H;
            unfold AI.isBoardFull in H; unfold Gameboard.isFull in Hfull;
            congruence|].
    split; [exact Hover|]. split; [reflexivity|].
    split; [|reflexivity].
    apply (ready_switchPlayer
             (GameController.withBoard st
                (<[Z.to_nat index := m]> (GameController.board st)))).
    exact Hready.
Qed.

(** The first move of a two-player game: X on the centre, player 2 is
    next. *)
Lemma makeMove_accepted_witness :
  exists st' r,
    GameController.makeMove 4
      (GameController.initialize "Ann" "Bob" false GameController.loaded)
    = Returned (st', r) /\
    Result.success r = true /\
    GameController.board st' = ["";"";"";"";"X";"";"";"";""].
Proof.
  destruct (makeMove_accepted 4
              (GameController.initialize "Ann" "Bob" false GameController.loaded))
    as (m & st' & r & Hm & Hmove & Hs & Hb & _).
  - apply initialize_ready.
  - reflexivity.
  - reflexivity.
  - exists st', r. split; [exact Hmove|]. split; [exact Hs|].
    rewrite Hb. injection Hm as <-. reflexivity.
Defined.

(** ** Invariants of a game *)

Lemma div2_even (k : nat) :
  (Nat.even k = true -> Nat.div2 (S k) = Nat.div2 k) /\
  (Nat.even k = false -> Nat.div2 (S k) = S (Nat.div2 k)).
Proof.
  cut ((Nat.even k = true -> Nat.div2 (S k) = Nat.div2 k) /\
       (Nat.even k = false -> Nat.div2 (S k) = S (Nat.div2 k)) /\
       (Nat.even (S k) = true -> Nat.div2 (S (S k)) = Nat.div2 (S k)) /\
       (Nat.even (S k) = false -> Nat.div2 (S (S k)) = S (Nat.div2 (S k))));
    [tauto|].
  induction k as [|k (IH1 & IH2 & IH3 & IH4)].
  - cbn. repeat split; congruence.
  - split; [exact IH3|]. split; [exact IH4|].
    change (Nat.even (S (S k))) with (Nat.even k).
    change (Nat.div2 (S (S (S k)))) with (S (Nat.div2 (S k))).
    change (Nat.div2 (S (S k))) with (S (Nat.div2 k)).
    split; intros H; f_equal; auto.
Qed.

Section Invariant.
Import GameController.

Lemma afterMoves_initialize (name1 name2 : string) (isVsComputer : bool)
      (st : GameState) :
  (length (board st) <= 9)%nat ->
  afterMoves 0 (initialize name1 name2 isVsComputer st).
Proof.
  intros Hlen. unfold initialize.
  rewrite (reset_nine _ Hlen).
  constructor; cbn -[lookup]; eauto; try discriminate.
  - destruct isVsComputer; eauto.
  - intros i c Hi. left.
    do 9 (destruct i as [|i]; [cbn in Hi; congruence|]). discriminate.
  - intros _. exists 0%nat. reflexivity.
Qed.

Lemma afterMoves_step (k : nat) (index : Z) (st st' : GameState)
      (r : Result.t) :
  afterMoves k st ->
  makeMove index st = Returned (st', r) ->
  Result.success r = true ->
  afterMoves (S k) st'.
Proof.
  intros Hinv Hm Hs.
  destruct (makeMove_success_inv _ _ _ _ Hm Hs)
    as (Hover & Hcell & m & Em & Heq).
  destruct Hinv
    as [[n1 Hp1] [n2 Hp2] Hlen Hcells HX HO Hempty Hprog Hwin Hdraw Hopen].
  destruct (Hprog Hover) as [Hnow Hcur].
  destruct (getCell_Cell_inv _ _ _ Hcell) as [Hi Hc].
  assert (Hmk : m = markerOfRef st (turnAfter k) /\
                ((Nat.even k = true /\ m = "X") \/
                 (Nat.even k = false /\ m = "O"))).
  { rewrite Hcur in Em. unfold markerOf, markerOfRef, turnAfter in *.
    destruct (Nat.even k); rewrite ?Hp1, ?Hp2 in *; cbn in Em;
      injection Em as <-; cbn; auto. }
  destruct Hmk as [Hmref Hmcase].
  assert (Hm0 : m <> "") by (destruct Hmcase as [[_ ->] | [_ ->]]; discriminate).
  set (b' := <[Z.to_nat index := m]> (board st)) in *.
  assert (Hlen' : length b' = 9%nat)
    by (subst b'; rewrite length_insert; exact Hlen).
  assert (Hcells' : forall j c, b' !! j = Some c -> c = "" \/ c = "X" \/ c = "O").
  { intros j c Hj. subst b'.
    destruct (Nat.eq_dec j (Z.to_nat index)) as [-> | Hne].
    - rewrite list_lookup_insert_eq in Hj by (apply lookup_lt_is_Some; eauto).
      injection Hj as <-. destruct Hmcase as [[_ ->] | [_ ->]]; auto.
    - rewrite list_lookup_insert_ne in Hj by congruence. eauto. }
  assert (He : S (countMark "" b') = countMark "" (board st)).
  { symmetry. exact (emptyCount_insert (board st) _ m Hc Hm0). }
  assert (Hcounts : countMark "X" b' = Nat.div2 (S (S k)) /\
                    countMark "O" b' = Nat.div2 (S k)).
  { change (Nat.div2 (S (S k))) with (S (Nat.div2 k)).
    destruct (div2_even k) as [Heven Hodd].
    destruct Hmcase as [[Hk ->] | [Hk ->]]; subst b'.
    - rewrite (countMark_insert_new _ _ "" "X" Hc) by discriminate.
      rewrite (countMark_insert_other _ _ "" "X" "O" Hc) by discriminate.
      rewrite HX, HO, (Heven Hk). auto.
    - rewrite (countMark_insert_new _ _ "" "O" Hc) by discriminate.
      rewrite (countMark_insert_other _ _ "" "O" "X" Hc) by discriminate.
      rewrite HX, HO, (Hodd Hk). auto. }
  destruct Hcounts as [HX' HO'].
  unfold accepted in Heq.
  destruct (AI.checkWinner b' m) eqn:Hw;
    [|destruct (Gameboard.isFull b') eqn:Hf];
    injection Heq as -> ->;
    (constructor; cbn [board player1 player2 currentPlayer gameOver winner
                          finish withBoard switchPlayer];
     [eauto | eauto | exact Hlen' | exact Hcells' | exact HX' | exact HO'
      | lia | | | | ]).
  - discriminate.
  - intros p Hp. rewrite Hcur in Hp. injection Hp as <-.
    split; [reflexivity|]. split; [|eauto].
    apply checkWinner_spec in Hw.
    change (markerOfRef (finish (withBoard st b') (currentPlayer st))
                        (turnAfter k))
      with (markerOfRef st (turnAfter k)).
    rewrite <- Hmref. exact Hw.
  - congruence.
  - discriminate.
  - discriminate.
  - congruence.
  - intros _ _. apply isBoardFull_spec. exact Hf.
  - discriminate.
  - intros _. split; [exact Hnow|].
    rewrite Hcur, turnAfter_S.
    unfold refPlayer1, refPlayer2. cbn [player1 player2 withBoard].
    rewrite Hp1, Hp2. unfold turnAfter. destruct (Nat.even k); reflexivity.
  - congruence.
  - congruence.
  - intros _. destruct (not_full_has_empty b' Hf) as (i & _ & Hci).
    exists i. apply cellIs_true. exact Hci.
Qed.

Lemma successfulMoves_afterMoves (indices : list Z) :
  forall (k : nat) (st st' : GameState),
    afterMoves k st ->
    successfulMoves indices st = Some st' ->
    afterMoves (k + length indices) st'.
Proof.
  induction indices as [|index rest IH]; intros k st st' Hinv Hrun.
  - cbn in Hrun. injection Hrun as <-. rewrite Nat.add_0_r. exact Hinv.
  - cbn [successfulMoves] in Hrun.
    destruct (makeMove index st) as [[st1 r]|e] eqn:E; [|discriminate].
    destruct (Result.success r) eqn:Hs; [|discriminate].
    replace (k + length (index :: rest))%nat
      with (S k + length rest)%nat by (cbn [length]; lia).
    apply (IH (S k) st1); [|exact Hrun].
    exact (afterMoves_step k index st st1 r Hinv E Hs).
Qed.

Lemma afterMoves_run (name1 name2 : string) (isVsComputer : bool)
      (st0 st : GameState) (indices : list Z) :
  (length (board st0) <= 9)%nat ->
  successfulMoves indices (initialize name1 name2 isVsComputer st0) = Some st ->
  afterMoves (length indices) st.
Proof.
  intros Hlen Hrun.
  apply (successfulMoves_afterMoves indices 0
           (initialize name1 name2 isVsComputer st0) st); [|exact Hrun].
  apply afterMoves_initialize. exact Hlen.
Qed.
End Invariant.

(** X5. The marks on the board of a game.  After [initialize] and any
    run of successful moves the board still has nine cells, each empty
    or holding X or O; every move has taken one empty cell, so a game
    has at most nine moves; and X, who moves first, has as many marks
    as O after an even number of moves and one more after an odd
    number. *)
Theorem game_marks (name1 name2 : string) (isVsComputer : bool)
        (st0 st : GameController.GameState) (indices : list Z) :
  (length (GameController.board st0) <= 9)%nat ->
  successfulMoves indices
    (GameController.initialize name1 name2 isVsComputer st0) = Some st ->
  length (GameController.board st) = 9%nat /\
  (forall i c, GameController.board st !! i = Some c ->
               c = "" \/ c = "X" \/ c = "O") /\
  (countMark "" (GameController.board st) + length indices = 9)%nat /\
  (length indices <= 9)%nat /\
  countMark "X" (GameController.board st)
  = (countMark "O" (GameController.board st)
     + if Nat.even (length indices) then 0 else 1)%nat.
Proof.
  intros Hlen Hrun.
  destruct (afterMoves_run name1 name2 isVsComputer st0 st indices Hlen Hrun)
    as [_ _ Hl Hcells HX HO Hempty _ _ _ _].
  split; [exact Hl|]. split; [exact Hcells|]. split; [exact Hempty|].
  split; [lia|].
  rewrite HX, HO. destruct (div2_even (length indices)) as [Heven Hodd].
  destruct (Nat.even (length indices)); [rewrite Heven | rewrite Hodd];
    trivial; lia.
Qed.

Lemma game_marks_witness :
  exists st,
    successfulMoves [4; 0; 8]
      (GameController.initialize "Ann" "Bob" false GameController.loaded)
    = Some st /\
    countMark "X" (GameController.board st)
    = (countMark "O" (GameController.board st) + 1)%nat.
Proof.
  eexists. split; [vm_compute; reflexivity|].
  apply (game_marks "Ann" "Bob" false GameController.loaded _ [4; 0; 8]);
    [cbn; lia | reflexivity].
Defined.

Lemma markerOfRef_afterMoves (k : nat) (st : GameController.GameState)
      (p : PlayerRef) :
  afterMoves k st ->
  markerOfRef st p = match p with P1 => "X" | P2 => "O" end.
Proof.
  intros [[n1 Hp1] [n2 Hp2] _ _ _ _ _ _ _ _ _].
  unfold markerOfRef. rewrite Hp1, Hp2. destruct p; reflexivity.
Qed.

(** X6. Winner and end of a game.  After [initialize] and any run of
    successful moves: a game in progress has no winner; a winner is
    recorded only on a game that is over, is the player who made the
    last move, and that player's marker holds a triple; and a game that
    is over without a winner has a full board. *)
Theorem game_winner (name1 name2 : string) (isVsComputer : bool)
        (st0 st : GameController.GameState) (indices : list Z) :
  (length (GameController.board st0) <= 9)%nat ->
  successfulMoves indices
    (GameController.initialize name1 name2 isVsComputer st0) = Some st ->
  (GameController.gameOver st = false -> GameController.winner st = None) /\
  (forall p, GameController.winner st = Some p ->
     GameController.gameOver st = true /\
     occupiesTriple (GameController.board st)
                    (match p with P1 => "X" | P2 => "O" end) /\
     exists k, length indices = S k /\ p = turnAfter k) /\
  (GameController.gameOver st = true -> GameController.winner st = None ->
   boardFull (GameController.board st)).
Proof.
  intros Hlen Hrun.
  pose proof (afterMoves_run name1 name2 isVsComputer st0 st indices Hlen Hrun)
    as Hinv.
  split; [|split].
  - intros Hover. apply (am_progress _ _ Hinv Hover).
  - intros p Hp. destruct (am_winner _ _ Hinv p Hp) as (Hover & Htriple & Hk).
    rewrite (markerOfRef_afterMoves _ _ p Hinv) in Htriple. auto.
  - apply (am_draw _ _ Hinv).
Qed.

(** X takes the top row while O plays the middle one: player 1 wins
    with the fifth move. *)
Lemma game_winner_witness :
  exists st,
    successfulMoves [0; 3; 1; 4; 2]
      (GameController.initialize "Ann" "Bob" false GameController.loaded)
    = Some st /\
    GameController.winner st = Some P1 /\
    occupiesTriple (GameController.board st) "X".
Proof.
  destruct (successfulMoves [0; 3; 1; 4; 2]
              (GameController.initialize "Ann" "Bob" false GameController.loaded))
    as [st|] eqn:Hrun; [|vm_compute in Hrun; discriminate Hrun].
  exists st. split; [reflexivity|].
  destruct (game_winner "Ann" "Bob" false GameController.loaded st
              [0; 3; 1; 4; 2] ltac:(cbn; lia) Hrun) as (_ & Hw & _).
  assert (Hwin : GameController.winner st = Some P1).
  { vm_compute in Hrun. injection Hrun as <-. reflexivity. }
  split; [exact Hwin | apply (Hw P1 Hwin)].
Defined.

Lemma find_first {A : Type} (f : A -> bool) (l : list A) (x : A) :
  List.find f l = Some x ->
  exists before after,
    l = (before ++ x :: after)%list /\ f x = true /\
    forall y, In y before -> f y = false.
Proof.
  induction l as [|a l IH]; [discriminate|].
  cbn [List.find]. destruct (f a) eqn:E.
  - intros [= ->]. exists [], l. split; [reflexivity|].
    split; [exact E | intros y []].
  - intros H. destruct (IH H) as (before & after & -> & Hx & Hb).
    exists (a :: before), after. split; [reflexivity|].
    split; [exact Hx|]. intros y [<- | Hy]; auto.
Qed.

Lemma find_none_iff {A : Type} (f : A -> bool) (l : list A) :
  List.find f l = None -> existsb f l = false.
Proof.
  induction l as [|a l IH]; [reflexivity|].
  cbn. destruct (f a); [discriminate | exact IH].
Qed.

(** X7. [getWinningCells] answers [null] while the game goes on and
    when it ended without a winner.  After [initialize] and a run of
    successful moves that left a winner it returns a triple: the first
    of the eight, in the order of the table, all of whose three cells
    hold the winner's marker. *)
Theorem getWinningCells_spec (name1 name2 : string) (isVsComputer : bool)
        (st0 st : GameController.GameState) (indices : list Z) :
  (length (GameController.board st0) <= 9)%nat ->
  successfulMoves indices
    (GameController.initialize name1 name2 isVsComputer st0) = Some st ->
  (GameController.gameOver st = false \/ GameController.winner st = None ->
   GameController.getWinningCells st = Returned None) /\
  (forall p, GameController.winner st = Some p ->
     let m := match p with P1 => "X" | P2 => "O" end in
     exists before condition after,
       GameController.getWinningCells st = Returned (Some condition) /\
       winConditions = (before ++ condition :: after)%list /\
       (forall i, In i condition -> GameController.board st !! i = Some m) /\
       (forall c, In c before ->
                  ~ forall i, In i c -> GameController.board st !! i = Some m)).
Proof.
  intros Hlen Hrun.
  pose proof (afterMoves_run name1 name2 isVsComputer st0 st indices Hlen Hrun)
    as Hinv.
  split.
  - intros [Hover | Hw]; unfold GameController.getWinningCells.
    + rewrite Hover. reflexivity.
    + rewrite Hw, orb_true_r. reflexivity.
  - intros p Hp m.
    destruct (am_winner _ _ Hinv p Hp) as (Hover & Htriple & _).
    pose proof (markerOfRef_afterMoves _ _ p Hinv) as Hm.
    fold m in Hm. rewrite Hm in Htriple.
    unfold GameController.getWinningCells. rewrite Hover, Hp.
    cbn [negb orb GameController.refEq].
    assert (Emark : GameController.markerOf st (Some p) = Returned m).
    { destruct Hinv as [[n1 Hp1] [n2 Hp2] _ _ _ _ _ _ _ _ _].
      unfold GameController.markerOf. rewrite Hp1, Hp2.
      subst m. destruct p; reflexivity. }
    replace (if GameController.refEq (Some p) None then _ else _)
      with (Returned (A := option (list nat))
              (List.find
                 (fun condition =>
                    forallb (fun index =>
                               cellIs (GameController.board st) index m)
                            condition) winConditions)).
    2: { destruct p; cbn [GameController.refEq]; rewrite Emark; reflexivity. }
    destruct (List.find _ winConditions) as [condition|] eqn:Efind.
    + destruct (find_first _ _ _ Efind) as (before & after & Hsplit & Hc & Hb).
      exists before, condition, after.
      split; [reflexivity|]. split; [exact Hsplit|]. split.
      * intros i Hi. apply cellIs_true.
        rewrite forallb_forall in Hc. auto.
      * intros c Hcin Hall. specialize (Hb c Hcin).
        assert (forallb (fun index =>
                           cellIs (GameController.board st) index m) c = true).
        { apply forallb_forall. intros i Hi. apply cellIs_true. auto. }
        congruence.
    + exfalso. apply find_none_iff in Efind.
      apply checkWinner_spec in Htriple. unfold AI.checkWinner in Htriple.
      congruence.
Qed.

(** X wins on the top row, the first triple of the table. *)
Lemma getWinningCells_spec_witness :
  exists st,
    successfulMoves [0; 3; 1; 4; 2]
      (GameController.initialize "Ann" "Bob" false GameController.loaded)
    = Some st /\
    exists before condition after,
      GameController.getWinningCells st = Returned (Some condition) /\
      winConditions = (before ++ condition :: after)%list /\
      (forall i, In i condition -> GameController.board st !! i = Some "X") /\
      (forall c, In c before ->
                 ~ forall i, In i c -> GameController.board st !! i = Some "X").
Proof.
  destruct (successfulMoves [0; 3; 1; 4; 2]
              (GameController.initialize "Ann" "Bob" false GameController.loaded))
    as [st|] eqn:Hrun; [|vm_compute in Hrun; discriminate Hrun].
  exists st. split; [reflexivity|].
  destruct (getWinningCells_spec "Ann" "Bob" false GameController.loaded st
              [0; 3; 1; 4; 2] ltac:(cbn; lia) Hrun) as [_ Hw].
  assert (Hwin : GameController.winner st = Some P1).
  { vm_compute in Hrun. injection Hrun as <-. reflexivity. }
  apply (Hw P1 Hwin).
Defined.

(** X8. [switchPlayer] is its own inverse on a game with both players
    set up: it hands the turn to the other player and nothing else
    changes, so switching twice gives the state back. *)
Theorem switchPlayer_involutive (st : GameController.GameState) :
  ready st ->
  GameController.currentPlayer (GameController.switchPlayer st)
  = opponentOf (GameController.currentPlayer st) /\
  ready (GameController.switchPlayer st) /\
  GameController.switchPlayer (GameController.switchPlayer st) = st.
Proof.
  intros (H1 & H2 & Hc).
  destruct st as [b p1 p2 cur over win vs cm]. cbn in H1, H2, Hc.
  destruct p1 as [p1|]; [|contradiction].
  destruct p2 as [p2|]; [|contradiction].
  destruct cur as [[|]|]; [| |contradiction]; cbn;
    (split; [reflexivity|]); (split; [|reflexivity]);
    repeat split; discriminate.
Qed.

Lemma switchPlayer_involutive_witness :
  GameController.switchPlayer (GameController.switchPlayer humanToMove)
  = humanToMove.
Proof.
  apply (switchPlayer_involutive humanToMove).
  apply initialize_ready.
Defined.

(** X9. The first move.  After [initialize], whatever the names, the
    mode and the game played before, every cell of [0..8] accepts the
    first move: it is X's, the game goes on and player 2 is next. *)
Theorem first_move (name1 name2 : string) (isVsComputer : bool)
        (st0 : GameController.GameState) (index : Z) :
  (length (GameController.board st0) <= 9)%nat ->
  0 <= index < 9 ->
  exists st',
    GameController.makeMove index
      (GameController.initialize name1 name2 isVsComputer st0)
    = Returned (st', Result.mk true None (Some false) None) /\
    GameController.board st' = <[Z.to_nat index := "X"]> Gameboard.initial /\
    GameController.currentPlayer st' = Some P2 /\
    GameController.gameOver st' = false /\
    GameController.winner st' = None.
Proof.
  intros Hlen Hi.
  assert (Hinit : GameController.board
                    (GameController.initialize name1 name2 isVsComputer st0)
                  = Gameboard.initial)
    by (cbn; apply reset_nine; exact Hlen).
  rewrite (makeMove_step index _ "X"); [| reflexivity | | reflexivity].
  - rewrite Hinit. unfold accepted.
    assert (Hcases : (Z.to_nat index = 0 \/ Z.to_nat index = 1
                     \/ Z.to_nat index = 2 \/ Z.to_nat index = 3
                     \/ Z.to_nat index = 4 \/ Z.to_nat index = 5
                     \/ Z.to_nat index = 6 \/ Z.to_nat index = 7
                     \/ Z.to_nat index = 8)%nat) by lia.
    destruct Hcases as [-> | [-> | [-> | [-> | [-> | [-> | [-> | [-> | ->]]]]]]]];
      eexists; (split; [reflexivity|]); cbn; auto.
  - rewrite Hinit. unfold Gameboard.getCell.
    destruct (Z.leb_spec 0 index), (Z.ltb_spec index 9); try lia. cbn [andb].
    assert (Hn : (Z.to_nat index < 9)%nat) by lia.
    destruct (Z.to_nat index) as [|[|[|[|[|[|[|[|[|n]]]]]]]]]; try reflexivity.
    lia.
Qed.

Lemma first_move_witness :
  exists st',
    GameController.makeMove 8
      (GameController.initialize "" "" true GameController.loaded)
    = Returned (st', Result.mk true None (Some false) None) /\
    GameController.board st' = <[8%nat := "X"]> Gameboard.initial /\
    GameController.currentPlayer st' = Some P2 /\
    GameController.gameOver st' = false /\
    GameController.winner st' = None.
Proof.
  apply (first_move "" "" true GameController.loaded 8); [cbn; lia | lia].
Defined.

(** ** The search: what it returns *)

Lemma getBestMove_fuel_full (fuel : nat) (board : Board)
      (computerMarker playerMarker : string) :
  (forall i, (i < 9)%nat -> cellIs board i "" = false) ->
  AI.getBestMove_fuel fuel board computerMarker playerMarker = Some None.
Proof.
  intros Hfull. unfold AI.getBestMove_fuel.
  match goal with
  | |- match for9 ?body ?init with _ => _ end = _ =>
    assert (exists r, for9 body init = Some r /\ r = init) as (r & -> & ->);
      [apply (for9_total body (fun _ acc => acc = init)) |]
  end.
  - reflexivity.
  - intros k a Hk ->. rewrite (Hfull k Hk). eauto.
  - reflexivity.
Qed.

Lemma getBestMove_finds (board : Board) (computerMarker playerMarker : string) :
  computerMarker <> "" \/ playerMarker <> "" ->
  (length board <= 9)%nat ->
  (exists i, board !! i = Some "") ->
  exists best,
    AI.getBestMove board computerMarker playerMarker = Returned (Some best) /\
    (best < 9)%nat /\ board !! best = Some "".
Proof.
  intros Hm Hlen (i0 & Hi0).
  destruct (getBestMove_fuel_argmax (AI.enough board) board
              computerMarker playerMarker
              (fun k => scoreValue
                          (AI.minimax_fuel (AI.enough board)
                                           (<[k := computerMarker]> board)
                                           0 false computerMarker playerMarker)))
    as (best & Hbest & Hb & Hcb & _).
  - intros k _ Hc. apply cellIs_true in Hc.
    destruct (candidate_score board computerMarker playerMarker k Hm Hlen Hc)
      as (z & -> & _). reflexivity.
  - exists i0. split; [|apply cellIs_true; exact Hi0].
    apply lookup_lt_Some in Hi0. lia.
  - exists best. unfold AI.getBestMove. rewrite Hbest.
    split; [reflexivity|]. split; [exact Hb | apply cellIs_true; exact Hcb].
Qed.

(** X10. What the search returns.  A cell it returns is an empty cell of
    [0..8], whatever the board and the markers.  On a board of at most
    nine cells and with two different markers it always returns, and it
    returns [null] exactly when no cell is empty. *)
Theorem getBestMove_result (board : Board)
        (computerMarker playerMarker : string) :
  (forall best,
      AI.getBestMove board computerMarker playerMarker = Returned (Some best) ->
      (best < 9)%nat /\ board !! best = Some "") /\
  ((length board <= 9)%nat -> computerMarker <> playerMarker ->
   (exists move,
       AI.getBestMove board computerMarker playerMarker = Returned move) /\
   (AI.getBestMove board computerMarker playerMarker = Returned None <->
    forall i, board !! i <> Some "")).
Proof.
  split.
  - intros best. unfold AI.getBestMove.
    destruct (AI.getBestMove_fuel _ _ _ _) as [move|] eqn:E; [|discriminate].
    intros [= ->]. apply getBestMove_fuel_empty in E as [Hb Hc].
    split; [exact Hb | apply cellIs_true; exact Hc].
  - intros Hlen Hne.
    pose proof (distinct_not_both_empty _ _ Hne) as Hm.
    assert (Hfull : (forall i, board !! i <> Some "") ->
                    AI.getBestMove board computerMarker playerMarker
                    = Returned None).
    { intros Hnone. unfold AI.getBestMove.
      rewrite getBestMove_fuel_full; [reflexivity|].
      intros i _. apply cellIs_false. apply Hnone. }
    assert (Hdec : (exists i, board !! i = Some "") \/
                   (forall i, board !! i <> Some "")).
    { destruct (AI.isBoardFull board) eqn:Hf.
      - right. intros i Hi. apply isBoardFull_spec in Hf.
        exact (Hf i "" Hi eq_refl).
      - left. destruct (not_full_has_empty board Hf) as (i & _ & Hc).
        exists i. apply cellIs_true. exact Hc. }
    split.
    + destruct Hdec as [Hsome | Hnone].
      * destruct (getBestMove_finds board _ _ Hm Hlen Hsome) as (best & -> & _).
        eauto.
      * rewrite (Hfull Hnone). eauto.
    + split; [|exact Hfull].
      intros Hnull. destruct Hdec as [Hsome | Hnone]; [|exact Hnone].
      destruct (getBestMove_finds board _ _ Hm Hlen Hsome) as (best & E & _).
      congruence.
Qed.

Lemma getBestMove_result_witness :
  AI.getBestMove ["X"; "O"; "X"; "X"; "O"; "O"; "O"; "X"; "X"] "O" "X"
  = Returned None.
Proof.
  destruct (getBestMove_result
              ["X"; "O"; "X"; "X"; "O"; "O"; "O"; "X"; "X"] "O" "X")
    as [_ H].
  destruct (H ltac:(cbn; lia) ltac:(discriminate)) as [_ [_ Hfull]].
  apply Hfull. intros i Hi.
  do 9 (destruct i as [|i]; [discriminate Hi|]). discriminate Hi.
Defined.

(** ** The heuristic selector: the cell it returns *)

Lemma tryCondition_empty (board : Board) (marker : string)
      (condition : list nat) (i : nat) :
  HeuristicAI.tryCondition board marker condition = Some i ->
  In i condition /\ board !! i = Some "".
Proof.
  unfold HeuristicAI.tryCondition.
  destruct condition as [|a [|b [|c [|d rest]]]]; try discriminate.
  destruct (_ && _); [|discriminate].
  destruct (cellIs board a "") eqn:Ea;
    [|destruct (cellIs board b "") eqn:Eb;
      [|destruct (cellIs board c "") eqn:Ec; [|discriminate]]];
    intros [= <-]; (split; [cbn; auto | apply cellIs_true; assumption]).
Qed.

Lemma findWinningMove_empty (board : Board) (marker : string) (i : nat) :
  HeuristicAI.findWinningMove board marker = Some i ->
  (i < 9)%nat /\ board !! i = Some "".
Proof.
  unfold HeuristicAI.findWinningMove.
  assert (H : forall conditions,
             (forall c, In c conditions -> In c winConditions) ->
             HeuristicAI.findWinningMove_in conditions board marker = Some i ->
             (i < 9)%nat /\ board !! i = Some "").
  { induction conditions as [|condition rest IH]; [discriminate|].
    intros Hsub. cbn [HeuristicAI.findWinningMove_in].
    destruct (HeuristicAI.tryCondition board marker condition) as [k|] eqn:E.
    - intros [= ->]. apply tryCondition_empty in E as [Hin He].
      split; [|exact He].
      apply (winConditions_range condition i); [apply Hsub; left|]; trivial.
    - apply IH. intros c Hc. apply Hsub. right. exact Hc. }
  apply H. auto.
Qed.

(** X11. The heuristic selector never proposes a taken cell: whatever
    the board, the markers and the random draw, a cell it returns is an
    empty cell of [0..8]. *)
Theorem heuristic_move_empty (random : nat) (board : Board)
        (computerMarker playerMarker : string) (move : nat) :
  HeuristicAI.getBestMove random board computerMarker playerMarker = Some move ->
  (move < 9)%nat /\ board !! move = Some "".
Proof.
  unfold HeuristicAI.getBestMove.
  destruct (HeuristicAI.findWinningMove board computerMarker) as [i|] eqn:Ewin.
  { intros [= <-]. exact (findWinningMove_empty _ _ _ Ewin). }
  destruct (HeuristicAI.findWinningMove board playerMarker) as [i|] eqn:Eblock.
  { intros [= <-]. exact (findWinningMove_empty _ _ _ Eblock). }
  destruct (cellIs board 4 "") eqn:Ecenter.
  { intros [= <-]. split; [lia | apply cellIs_true; exact Ecenter]. }
  destruct (0 <? length (List.filter _ HeuristicAI.corners))%nat eqn:Ecorner.
  { destruct (pick_available random board HeuristicAI.corners Ecorner)
      as (i & -> & Hi).
    intros [= <-]. apply emptyAmong_range. left. exact Hi. }
  destruct (0 <? length (List.filter _ HeuristicAI.edges))%nat eqn:Eedge;
    [|discriminate].
  destruct (pick_available random board HeuristicAI.edges Eedge)
    as (i & -> & Hi).
  intros [= <-]. apply emptyAmong_range. right. exact Hi.
Qed.

(** X holds 0 and 4: the selector blocks on cell 8, which is empty. *)
Lemma heuristic_move_empty_witness :
  (8 < 9)%nat /\ ["X"; ""; "O"; ""; "X"; ""; "O"; ""; ""] !! 8%nat = Some "".
Proof.
  apply (heuristic_move_empty 7 ["X"; ""; "O"; ""; "X"; ""; "O"; ""; ""]
           "O" "X" 8).
  reflexivity.
Defined.

(** ** The computer's turn *)

Section ComputerTurn.
Import GameController.

Lemma accepted_mode (st : GameState) (board' : Board) (m : string) :
  vsComputer (fst (accepted st board' m)) = vsComputer st /\
  computerMarker (fst (accepted st board' m)) = computerMarker st /\
  Result.success (snd (accepted st board' m)) = true /\
  (gameOver st = false ->
   Result.gameOver (snd (accepted st board' m))
   = Some (gameOver (fst (accepted st board' m)))).
Proof.
  unfold accepted.
  destruct (AI.checkWinner board' m); [|destruct (Gameboard.isFull board')];
    cbn; repeat split; trivial; congruence.
Qed.

Lemma makeMove_mode (index : Z) (st st' : GameState) (r : Result.t) :
  makeMove index st = Returned (st', r) ->
  vsComputer st' = vsComputer st /\ computerMarker st' = computerMarker st.
Proof.
  intros Hm. destruct (Result.success r) eqn:Hs.
  - destruct (makeMove_success_inv _ _ _ _ Hm Hs) as (_ & _ & m & _ & Heq).
    destruct (accepted_mode st (<[Z.to_nat index := m]> (board st)) m)
      as (Hv & Hc & _).
    rewrite <- Heq in Hv, Hc. auto.
  - destruct (makeMove_failure_inv _ _ _ _ Hm Hs) as [-> _]. auto.
Qed.

Lemma successfulMoves_mode (indices : list Z) :
  forall st st',
    successfulMoves indices st = Some st' ->
    vsComputer st' = vsComputer st /\ computerMarker st' = computerMarker st.
Proof.
  induction indices as [|index rest IH]; intros st st' Hrun.
  - cbn in Hrun. injection Hrun as <-. auto.
  - cbn [successfulMoves] in Hrun.
    destruct (makeMove index st) as [[st1 r]|e] eqn:E; [|discriminate].
    destruct (Result.success r); [|discriminate].
    destruct (makeMove_mode _ _ _ _ E) as [Hv Hc].
    destruct (IH st1 st' Hrun) as [Hv' Hc']. split; congruence.
Qed.

Lemma computerGame_run (name1 name2 : string) (st0 st : GameState)
      (indices : list Z) :
  (length (board st0) <= 9)%nat ->
  successfulMoves indices (initialize name1 name2 true st0) = Some st ->
  computerGame (length indices) st.
Proof.
  intros Hlen Hrun.
  split; [exact (afterMoves_run name1 name2 true st0 st indices Hlen Hrun)|].
  destruct (successfulMoves_mode indices _ _ Hrun) as [-> ->]. auto.
Qed.

Lemma afterMoves_ready (k : nat) (st : GameState) :
  afterMoves k st -> gameOver st = false -> ready st.
Proof.
  intros Hinv Hover.
  destruct (am_player1 _ _ Hinv) as [n1 Hp1].
  destruct (am_player2 _ _ Hinv) as [n2 Hp2].
  destruct (am_progress _ _ Hinv Hover) as [_ Hcur].
  unfold ready. rewrite Hp1, Hp2, Hcur. repeat split; discriminate.
Qed.

Lemma afterMoves_marker (k : nat) (st : GameState) :
  afterMoves k st -> gameOver st = false ->
  markerOf st (currentPlayer st)
  = Returned (if Nat.even k then "X" else "O") /\
  markerOf st (refPlayer1 st) = Returned "X".
Proof.
  intros Hinv Hover.
  destruct (am_player1 _ _ Hinv) as [n1 Hp1].
  destruct (am_player2 _ _ Hinv) as [n2 Hp2].
  destruct (am_progress _ _ Hinv Hover) as [_ Hcur].
  rewrite Hcur. unfold markerOf, refPlayer1, turnAfter. rewrite Hp1, Hp2.
  destruct (Nat.even k); auto.
Qed.

Lemma human_turn (k : nat) (st : GameState) :
  computerGame k st -> gameOver st = false -> Nat.even k = true ->
  isComputerTurn st = Returned false /\
  makeComputerMove st = Returned (st, Result.mk false None None None).
Proof.
  intros (Hinv & Hvs & Hcm) Hover Hk.
  destruct (afterMoves_marker k st Hinv Hover) as [Hm _]. rewrite Hk in Hm.
  assert (Hturn : isComputerTurn st = Returned false).
  { unfold isComputerTurn. rewrite Hvs, Hm, Hcm. reflexivity. }
  split; [exact Hturn | apply makeComputerMove_not_turn; exact Hturn].
Qed.

Lemma computer_turn (k : nat) (st : GameState) :
  computerGame k st -> gameOver st = false -> Nat.even k = false ->
  exists best st' r,
    isComputerTurn st = Returned true /\
    AI.getBestMove (board st) "O" "X" = Returned (Some best) /\
    board st !! best = Some "" /\
    makeComputerMove st = Returned (st', r) /\
    makeMove (Z.of_nat best) st = Returned (st', r) /\
    Result.success r = true /\
    Result.gameOver r = Some (gameOver st') /\
    board st' = <[best := "O"]> (board st) /\
    computerGame (S k) st'.
Proof.
  intros (Hinv & Hvs & Hcm) Hover Hk.
  destruct (afterMoves_marker k st Hinv Hover) as [Hm Hp]. rewrite Hk in Hm.
  assert (Hturn : isComputerTurn st = Returned true).
  { unfold isComputerTurn. rewrite Hvs, Hm, Hcm. reflexivity. }
  destruct (getBestMove_finds (board st) "O" "X") as (best & Hbest & Hb & He).
  { left. discriminate. }
  { rewrite (am_length _ _ Hinv). lia. }
  { exact (am_open _ _ Hinv Hover). }
  assert (Hcell : Gameboard.getCell (Z.of_nat best) (board st)
                  = Gameboard.Cell "").
  { apply getCell_empty; [exact Hb | apply cellIs_true; exact He]. }
  pose proof (makeMove_step (Z.of_nat best) st "O" Hover Hcell Hm) as Hstep.
  rewrite Nat2Z.id in Hstep.
  destruct (accepted st (<[best := "O"]> (board st)) "O") as [st' r] eqn:Eacc.
  destruct (accepted_mode st (<[best := "O"]> (board st)) "O")
    as (Hv' & Hc' & Hs' & Hg').
  rewrite Eacc in Hv', Hc', Hs', Hg'. cbn [fst snd] in Hv', Hc', Hs', Hg'.
  exists best, st', r.
  split; [exact Hturn|]. split; [exact Hbest|]. split; [exact He|].
  split.
  { unfold makeComputerMove. rewrite Hturn. cbn [mbind outcome_bind negb orb].
    rewrite Hover, Hp. cbn [mbind outcome_bind].
    rewrite Hcm, Hbest. cbn [mbind outcome_bind]. exact Hstep. }
  split; [exact Hstep|]. split; [exact Hs'|]. split; [exact (Hg' Hover)|].
  split.
  { unfold accepted in Eacc.
    destruct (AI.checkWinner _ _); [|destruct (Gameboard.isFull _)];
      injection Eacc as <- <-; reflexivity. }
  split; [exact (afterMoves_step k _ st st' r Hinv Hstep Hs')|].
  split; congruence.
Qed.
End ComputerTurn.

(** X12. The computer's move.  In a game against the computer that is
    in progress after a run of successful moves, [isComputerTurn] is
    true exactly after an odd number of moves.  Then [makeComputerMove]
    makes the move [makeMove] makes on the cell the search returns for O
    against X: it succeeds and writes O into that cell, which was empty.
    After an even number of moves it fails and changes nothing. *)
Theorem makeComputerMove_moves (name1 name2 : string)
        (st0 st : GameController.GameState) (indices : list Z) :
  (length (GameController.board st0) <= 9)%nat ->
  successfulMoves indices
    (GameController.initialize name1 name2 true st0) = Some st ->
  GameController.gameOver st = false ->
  if Nat.even (length indices) then
    GameController.isComputerTurn st = Returned false /\
    GameController.makeComputerMove st
    = Returned (st, Result.mk false None None None)
  else
    exists best st' r,
      GameController.isComputerTurn st = Returned true /\
      AI.getBestMove (GameController.board st) "O" "X" = Returned (Some best) /\
      GameController.board st !! best = Some "" /\
      GameController.makeComputerMove st = Returned (st', r) /\
      GameController.makeMove (Z.of_nat best) st = Returned (st', r) /\
      Result.success r = true /\
      GameController.board st' = <[best := "O"]> (GameController.board st).
Proof.
  intros Hlen Hrun Hover.
  pose proof (computerGame_run name1 name2 st0 st indices Hlen Hrun) as Hgame.
  destruct (Nat.even (length indices)) eqn:Hk.
  - exact (human_turn _ st Hgame Hover Hk).
  - destruct (computer_turn _ st Hgame Hover Hk)
      as (best & st' & r & H1 & H2 & H3 & H4 & H5 & H6 & _ & H8 & _).
    exists best, st', r. auto 10.
Qed.

(** X has taken the centre: the computer answers on an empty cell. *)
Lemma makeComputerMove_moves_witness :
  exists st best st' r,
    successfulMoves [4]
      (GameController.initialize "Ann" "" true GameController.loaded)
    = Some st /\
    GameController.makeComputerMove st = Returned (st', r) /\
    Result.success r = true /\
    GameController.board st' = <[best := "O"]> (GameController.board st).
Proof.
  destruct (successfulMoves [4]
              (GameController.initialize "Ann" "" true GameController.loaded))
    as [st|] eqn:Hrun; [|vm_compute in Hrun; discriminate Hrun].
  assert (Hover : GameController.gameOver st = false).
  { vm_compute in Hrun. injection Hrun as <-. reflexivity. }
  destruct (makeComputerMove_moves "Ann" "" GameController.loaded st [4]
              ltac:(cbn; lia) Hrun Hover)
    as (best & st' & r & _ & _ & _ & Hmove & _ & Hs & Hb).
  exists st, best, st', r. auto.
Defined.

(** X13. In a two-player game the computer never moves: after
    [initialize] without the computer and any run of successful moves,
    [isComputerTurn] is false and [makeComputerMove] fails and changes
    nothing. *)
Theorem two_player_no_computer (name1 name2 : string)
        (st0 st : GameController.GameState) (indices : list Z) :
  successfulMoves indices
    (GameController.initialize name1 name2 false st0) = Some st ->
  GameController.isComputerTurn st = Returned false /\
  GameController.makeComputerMove st
  = Returned (st, Result.mk false None None None).
Proof.
  intros Hrun.
  destruct (successfulMoves_mode indices _ _ Hrun) as [Hvs _].
  cbn in Hvs.
  assert (Hturn : GameController.isComputerTurn st = Returned false).
  { unfold GameController.isComputerTurn. rewrite Hvs. reflexivity. }
  split; [exact Hturn | apply makeComputerMove_not_turn; exact Hturn].
Qed.

Lemma two_player_no_computer_witness :
  exists st,
    successfulMoves [4]
      (GameController.initialize "Ann" "Bob" false GameController.loaded)
    = Some st /\
    GameController.makeComputerMove st
    = Returned (st, Result.mk false None None None).
Proof.
  destruct (successfulMoves [4]
              (GameController.initialize "Ann" "Bob" false GameController.loaded))
    as [st|] eqn:Hrun; [|vm_compute in Hrun; discriminate Hrun].
  exists st. split; [reflexivity|].
  apply (two_player_no_computer "Ann" "Bob" GameController.loaded st [4] Hrun).
Defined.

(** ** Clicks in a game against the computer *)

Section Clicks.
Import GameController.

Lemma handleCellClick_keeps (index : Z) (st : GameState) :
  betweenClicks st ->
  exists st', handleCellClick index st = Returned st' /\ betweenClicks st'.
Proof.
  intros (k & Hgame & Hpar).
  destruct (gameOver st) eqn:Hover.
  { exists st. split; [apply handleCellClick_rejected; auto|].
    exists k. split; [exact Hgame | congruence]. }
  destruct (notEmptyString (Gameboard.getCell index (board st))) eqn:Hcell.
  { exists st. split; [apply handleCellClick_rejected; auto|].
    exists k. split; [exact Hgame | auto]. }
  apply notEmptyString_false in Hcell.
  specialize (Hpar eq_refl).
  destruct Hgame as (Hinv & Hvs & Hcm).
  destruct (afterMoves_marker k st Hinv Hover) as [Hm _]. rewrite Hpar in Hm.
  pose proof (makeMove_step index st "X" Hover Hcell Hm) as Hstep.
  destruct (accepted st (<[Z.to_nat index := "X"]> (board st)) "X")
    as [st1 r1] eqn:Eacc.
  destruct (accepted_mode st (<[Z.to_nat index := "X"]> (board st)) "X")
    as (Hv1 & Hc1 & Hs1 & Hg1).
  rewrite Eacc in Hv1, Hc1, Hs1, Hg1. cbn [fst snd] in Hv1, Hc1, Hs1, Hg1.
  specialize (Hg1 Hover).
  assert (Hgame1 : computerGame (S k) st1).
  { split; [exact (afterMoves_step k index st st1 r1 Hinv Hstep Hs1)|].
    split; congruence. }
  unfold handleCellClick. rewrite Hstep. cbn [mbind outcome_bind].
  rewrite Hs1, Hg1.
  destruct (gameOver st1) eqn:Hover1.
  { exists st1. split; [reflexivity|].
    exists (S k). split; [exact Hgame1 | congruence]. }
  assert (Hodd : Nat.even (S k) = false).
  { rewrite Nat.even_succ, <- Nat.negb_even, Hpar. reflexivity. }
  destruct (computer_turn (S k) st1 Hgame1 Hover1 Hodd)
    as (best & st2 & r2 & Hturn & _ & _ & Hcomp & _ & _ & _ & _ & Hgame2).
  rewrite Hturn. cbn [mbind outcome_bind]. unfold isVsComputer.
  destruct Hgame1 as (_ & -> & _). cbn [andb].
  rewrite Hcomp. cbn [mbind outcome_bind fst].
  exists st2. split; [reflexivity|].
  exists (S (S k)). split; [exact Hgame2 | intros _; exact Hpar].
Qed.

Lemma play_keeps (clicks : list Z) :
  forall st, betweenClicks st ->
             exists st', play clicks st = Returned st' /\ betweenClicks st'.
Proof.
  induction clicks as [|index rest IH]; intros st Hst.
  - exists st. split; [reflexivity | exact Hst].
  - destruct (handleCellClick_keeps index st Hst) as (st1 & E & Hst1).
    cbn [play]. rewrite E. cbn [mbind outcome_bind]. apply IH. exact Hst1.
Qed.
End Clicks.

(** X14. Turns in a game against the computer.  Whatever cells the
    human clicks, handled one click after the other, no call throws;
    the computer answers every accepted click that leaves the game in
    progress, so between clicks a game in progress has the human to
    move and as many X as O on the board; and at any time X has as many
    marks as O or one more. *)
Theorem computer_answers (name1 name2 : string)
        (st0 : GameController.GameState) (clicks : list Z) :
  (length (GameController.board st0) <= 9)%nat ->
  exists st,
    GameController.play clicks (GameController.initialize name1 name2 true st0)
    = Returned st /\
    (GameController.gameOver st = false ->
     GameController.currentPlayer st = Some P1 /\
     countMark "X" (GameController.board st)
     = countMark "O" (GameController.board st)) /\
    (countMark "O" (GameController.board st)
     <= countMark "X" (GameController.board st)
     <= S (countMark "O" (GameController.board st)))%nat.
Proof.
  intros Hlen.
  destruct (play_keeps clicks
              (GameController.initialize name1 name2 true st0))
    as (st & Hplay & k & (Hinv & _ & _) & Hpar).
  { exists 0%nat. split; [|reflexivity].
    apply (computerGame_run name1 name2 st0 _ [] Hlen). reflexivity. }
  exists st. split; [exact Hplay|].
  pose proof (am_countX _ _ Hinv) as HX.
  pose proof (am_countO _ _ Hinv) as HO.
  destruct (div2_even k) as [Heven Hodd].
  split.
  - intros Hover. specialize (Hpar Hover).
    destruct (am_progress _ _ Hinv Hover) as [_ Hcur].
    unfold turnAfter in Hcur. rewrite Hpar in Hcur.
    split; [exact Hcur|]. rewrite HX, HO. auto.
  - rewrite HX, HO. destruct (Nat.even k); [rewrite Heven | rewrite Hodd];
      trivial; lia.
Qed.

Lemma computer_answers_witness :
  exists st,
    GameController.play [0; 0; 8]
      (GameController.initialize "Ann" "" true GameController.loaded)
    = Returned st /\
    (GameController.gameOver st = false ->
     GameController.currentPlayer st = Some P1 /\
     countMark "X" (GameController.board st)
     = countMark "O" (GameController.board st)) /\
    (countMark "O" (GameController.board st)
     <= countMark "X" (GameController.board st)
     <= S (countMark "O" (GameController.board st)))%nat.
Proof.
  apply (computer_answers "Ann" "" GameController.loaded [0; 0; 8]).
  cbn. lia.
Defined.

(** ** The search: one ply *)

Section ScanExtremum.
Variable board : Board.
Variable rec : nat -> option Score.
Variable sc : nat -> Z.
Variable comb : Score -> Score -> Score.
Variable init : Score.
Variable R : Z -> Z -> Prop.

Hypothesis rec_sc :
  forall k, (k < 9)%nat -> cellIs board k "" = true -> rec k = Some (Num (sc k)).
Hypothesis comb_init : forall a, comb (Num a) init = Num a.
Hypothesis comb_pick :
  forall a b, (comb (Num a) (Num b) = Num a /\ R b a) \/
              (comb (Num a) (Num b) = Num b /\ R a b).
Hypothesis R_refl : forall a, R a a.
Hypothesis R_trans : forall a b c, R a b -> R b c -> R a c.

Lemma scan_extremum :
  (exists i, (i < 9)%nat /\ cellIs board i "" = true) ->
  exists b, (b < 9)%nat /\ cellIs board b "" = true /\
            for9 (scanBody board rec comb) init = Some (Num (sc b)) /\
            forall j, (j < 9)%nat -> cellIs board j "" = true ->
                      R (sc j) (sc b).
Proof.
  intros (i0 & Hi0 & Hc0).
  assert (exists r, for9 (scanBody board rec comb) init = Some r /\
                    extremumSoFar board sc R init 9 r)
    as (r & Hr & [[_ Hnone] | (b & Hb & Hcb & -> & Hbest)]).
  { apply (for9_total (scanBody board rec comb)
             (extremumSoFar board sc R init)).
    - left. split; [reflexivity | intros j Hj; lia].
    - intros k a Hk IH. unfold scanBody.
      destruct (cellIs board k "") eqn:Hc.
      + rewrite (rec_sc k Hk Hc).
        destruct IH as [[-> Hnone] | (b & Hb & Hcb & -> & Hbest)].
        * exists (Num (sc k)). split; [rewrite comb_init; reflexivity|].
          right. exists k. split; [lia|]. split; [exact Hc|].
          split; [reflexivity|]. intros j Hj Hcj.
          destruct (Nat.eq_dec j k) as [-> | Hne]; [apply R_refl|].
          rewrite (Hnone j) in Hcj by lia. discriminate.
        * destruct (comb_pick (sc k) (sc b)) as [[-> Hr] | [-> Hr]];
            eexists; (split; [reflexivity|]); right.
          -- exists k. split; [lia|]. split; [exact Hc|].
             split; [reflexivity|]. intros j Hj Hcj.
             destruct (Nat.eq_dec j k) as [-> | Hne]; [apply R_refl|].
             apply (R_trans _ (sc b)); [apply Hbest; [lia | exact Hcj] | exact Hr].
          -- exists b. split; [lia|]. split; [exact Hcb|].
             split; [reflexivity|]. intros j Hj Hcj.
             destruct (Nat.eq_dec j k) as [-> | Hne]; [exact Hr|].
             apply Hbest; [lia | exact Hcj].
      + exists a. split; [reflexivity|].
        destruct IH as [[-> Hnone] | (b & Hb & Hcb & -> & Hbest)].
        * left. split; [reflexivity|]. intros j Hj.
          destruct (Nat.eq_dec j k) as [-> | Hne]; [exact Hc | apply Hnone; lia].
        * right. exists b. split; [lia|]. split; [exact Hcb|].
          split; [reflexivity|]. intros j Hj Hcj.
          destruct (Nat.eq_dec j k) as [-> | Hne]; [congruence|].
          apply Hbest; [lia | exact Hcj]. }
  - rewrite (Hnone i0 Hi0) in Hc0. discriminate.
  - exists b. auto.
Qed.
End ScanExtremum.

Lemma score_max_pick (a b : Z) :
  (score_max (Num a) (Num b) = Num a /\ b <= a) \/
  (score_max (Num a) (Num b) = Num b /\ a <= b).
Proof.
  unfold score_max, score_gt. destruct (Z.ltb_spec a b); [right | left];
    split; trivial; lia.
Qed.

Lemma score_min_pick (a b : Z) :
  (score_min (Num a) (Num b) = Num a /\ a <= b) \/
  (score_min (Num a) (Num b) = Num b /\ b <= a).
Proof.
  unfold score_min, score_gt. destruct (Z.ltb_spec b a); [right | left];
    split; trivial; lia.
Qed.

Lemma minimax_fuel_agree (computerMarker playerMarker : string)
      (fuel1 fuel2 : nat) (board : Board) (depth : Z) (isMaximizing : bool)
      (s1 s2 : Score) :
  AI.minimax_fuel fuel1 board depth isMaximizing computerMarker playerMarker
  = Some s1 ->
  AI.minimax_fuel fuel2 board depth isMaximizing computerMarker playerMarker
  = Some s2 ->
  s1 = s2.
Proof.
  intros H1 H2.
  apply (minimax_fuel_mono _ _ _ (Nat.max fuel1 fuel2)) in H1; [|lia].
  apply (minimax_fuel_mono _ _ _ (Nat.max fuel1 fuel2)) in H2; [|lia].
  congruence.
Qed.

(** The value of the nested call for cell [k], inside the recursion and
    as a call of its own. *)
Lemma child_value (board : Board) (depth : Z) (isMaximizing : bool)
      (computerMarker playerMarker : string) (k : nat) :
  computerMarker <> "" \/ playerMarker <> "" ->
  (length board <= 9)%nat ->
  board !! k = Some "" ->
  let mover := if isMaximizing then computerMarker else playerMarker in
  exists z,
    AI.minimax_fuel (2 * AI.emptyCount board + 2) (<[k := mover]> board)
                    (depth + 1) (negb isMaximizing)
                    computerMarker playerMarker = Some (Num z) /\
    AI.minimax (<[k := mover]> board) (depth + 1) (negb isMaximizing)
               computerMarker playerMarker = Returned (Num z).
Proof.
  intros Hm Hlen Hk mover.
  pose proof (measure_falls board k isMaximizing _ _ Hm Hk) as Hfall.
  cbv zeta in Hfall. fold mover in Hfall.
  pose proof (moverEmpty_le isMaximizing computerMarker playerMarker) as Hme.
  destruct (minimax_fuel_enough computerMarker playerMarker
              (2 * AI.emptyCount board + 2) Hm (<[k := mover]> board)
              (depth + 1) (negb isMaximizing)) as [z Hz].
  { rewrite length_insert. exact Hlen. }
  { lia. }
  destruct (minimax_returns (<[k := mover]> board) (depth + 1)
              (negb isMaximizing) computerMarker playerMarker Hm)
    as (z' & Hw & Hall).
  { rewrite length_insert. exact Hlen. }
  exists z. split; [exact Hz|]. rewrite Hw.
  pose proof (minimax_fuel_agree _ _ _ _ _ _ _ _ _ Hz (Hall _ (Nat.le_refl _)))
    as E.
  congruence.
Qed.

(** X15. One ply of the search.  At a position that is not terminal,
    on a board of at most nine cells and with markers that are not both
    the empty string, the value of [minimax] is the value of one of the
    moves of the player to move, and it is the largest of these values
    on the computer's ply and the smallest on the opponent's, a move
    being valued by [minimax] one level deeper with the other player to
    move. *)
Theorem minimax_ply (board : Board) (depth : Z) (isMaximizing : bool)
        (computerMarker playerMarker : string) :
  computerMarker <> "" \/ playerMarker <> "" ->
  (length board <= 9)%nat ->
  ~ occupiesTriple board computerMarker ->
  ~ occupiesTriple board playerMarker ->
  ~ boardFull board ->
  let mover := if isMaximizing then computerMarker else playerMarker in
  let child := fun k =>
    AI.minimax (<[k := mover]> board) (depth + 1) (negb isMaximizing)
               computerMarker playerMarker in
  exists z,
    AI.minimax board depth isMaximizing computerMarker playerMarker
    = Returned (Num z) /\
    (exists k, board !! k = Some "" /\ child k = Returned (Num z)) /\
    (forall k, board !! k = Some "" ->
       exists s, child k = Returned (Num s) /\
                 if isMaximizing then s <= z else z <= s).
Proof.
  intros Hm Hlen Hc Hp Hfull mover child.
  set (fuel := (2 * AI.emptyCount board + 2)%nat).
  set (sc := fun k =>
               scoreValue (AI.minimax_fuel fuel (<[k := mover]> board)
                             (depth + 1) (negb isMaximizing)
                             computerMarker playerMarker)).
  assert (Hsc : forall k, board !! k = Some "" ->
            AI.minimax_fuel fuel (<[k := mover]> board) (depth + 1)
                            (negb isMaximizing) computerMarker playerMarker
            = Some (Num (sc k)) /\
            child k = Returned (Num (sc k))).
  { intros k Hk.
    destruct (child_value board depth isMaximizing _ _ k Hm Hlen Hk)
      as (z & Hz & Hw).
    fold mover fuel in Hz. fold mover in Hw.
    unfold sc. rewrite Hz. cbn [scoreValue]. auto. }
  assert (Hnf : AI.isBoardFull board = false).
  { destruct (AI.isBoardFull board) eqn:E; [|reflexivity].
    apply isBoardFull_spec in E. contradiction. }
  destruct (not_full_has_empty board Hnf) as (i0 & Hi0 & Hc0).
  assert (Hex : exists i, (i < 9)%nat /\ cellIs board i "" = true)
    by (exists i0; split; [lia | exact Hc0]).
  set (rec := fun i => AI.minimax_fuel fuel (<[i := mover]> board)
                        (depth + 1) (negb isMaximizing)
                        computerMarker playerMarker).
  assert (Hstep :
            AI.minimax_fuel (S fuel) board depth isMaximizing
                            computerMarker playerMarker
            = for9 (scanBody board rec
                      (if isMaximizing then score_max else score_min))
                   (if isMaximizing then NegInfinity else PosInfinity)).
  { cbn [AI.minimax_fuel]. unfold AI.evaluate.
    rewrite (checkWinner_false _ _ Hc), (checkWinner_false _ _ Hp), Hnf.
    subst rec mover. destruct isMaximizing; reflexivity. }
  assert (Hmm : AI.minimax board depth isMaximizing computerMarker playerMarker
                = match AI.minimax_fuel (S fuel) board depth isMaximizing
                                        computerMarker playerMarker with
                  | Some s => Returned s
                  | None => Threw RangeError
                  end).
  { unfold AI.minimax, AI.enough, fuel.
    replace (2 * AI.emptyCount board + 3)%nat
      with (S (2 * AI.emptyCount board + 2)) by lia. reflexivity. }
  rewrite Hmm, Hstep.
  destruct isMaximizing.
  - destruct (scan_extremum board rec sc score_max NegInfinity
                (fun a b => a <= b)) as (b & Hb & Hcb & -> & Hbest); trivial.
    + intros k _ Hk. apply cellIs_true in Hk. apply (Hsc k Hk).
    + intros a c. destruct (score_max_pick a c); auto.
    + intros a. lia.
    + intros a c d. lia.
    + apply cellIs_true in Hcb. exists (sc b). split; [reflexivity|].
      split; [exists b; split; [exact Hcb | apply Hsc; exact Hcb]|].
      intros k Hk. exists (sc k). split; [apply Hsc; exact Hk|].
      apply Hbest; [|apply cellIs_true; exact Hk].
      apply lookup_lt_Some in Hk. lia.
  - destruct (scan_extremum board rec sc score_min PosInfinity
                (fun a b => b <= a)) as (b & Hb & Hcb & -> & Hbest); trivial.
    + intros k _ Hk. apply cellIs_true in Hk. apply (Hsc k Hk).
    + intros a c. destruct (score_min_pick a c); auto.
    + intros a. lia.
    + intros a c d. lia.
    + apply cellIs_true in Hcb. exists (sc b). split; [reflexivity|].
      split; [exists b; split; [exact Hcb | apply Hsc; exact Hcb]|].
      intros k Hk. exists (sc k). split; [apply Hsc; exact Hk|].
      apply Hbest; [|apply cellIs_true; exact Hk].
      apply lookup_lt_Some in Hk. lia.
Qed.

Lemma no_triple (board : Board) (marker : string) :
  AI.checkWinner board marker = false -> ~ occupiesTriple board marker.
Proof. intros H Ho. apply checkWinner_spec in Ho. congruence. Qed.

(** X to move after X, O, X, O on the top two rows. *)
Lemma minimax_ply_witness :
  exists z,
    AI.minimax ["X"; "O"; "X"; "O"; ""; ""; ""; ""; ""] 0 false "O" "X"
    = Returned (Num z) /\
    (exists k, ["X"; "O"; "X"; "O"; ""; ""; ""; ""; ""] !! k = Some "" /\
               AI.minimax (<[k := "X"]> ["X"; "O"; "X"; "O"; ""; ""; ""; ""; ""])
                          (0 + 1) true "O" "X" = Returned (Num z)) /\
    (forall k, ["X"; "O"; "X"; "O"; ""; ""; ""; ""; ""] !! k = Some "" ->
       exists s,
         AI.minimax (<[k := "X"]> ["X"; "O"; "X"; "O"; ""; ""; ""; ""; ""])
                    (0 + 1) true "O" "X" = Returned (Num s) /\
         z <= s).
Proof.
  apply (minimax_ply ["X"; "O"; "X"; "O"; ""; ""; ""; ""; ""] 0 false "O" "X").
  - left. discriminate.
  - cbn. lia.
  - apply no_triple. reflexivity.
  - apply no_triple. reflexivity.
  - intros H. apply (H 4%nat ""); reflexivity.
Defined.

(** ** The search: range of the scores *)

Lemma minimax_fuel_num (computerMarker playerMarker : string) (fuel : nat)
      (board : Board) (depth : Z) (isMaximizing : bool) (s : Score) :
  computerMarker <> "" \/ playerMarker <> "" ->
  (length board <= 9)%nat ->
  AI.minimax_fuel fuel board depth isMaximizing computerMarker playerMarker
  = Some s ->
  exists z, s = Num z.
Proof.
  intros Hm Hlen Hs.
  destruct (minimax_returns board depth isMaximizing _ _ Hm Hlen)
    as (z & _ & Hall).
  exists z.
  exact (minimax_fuel_agree _ _ _ _ _ _ _ _ _ Hs (Hall _ (Nat.le_refl _))).
Qed.

Lemma minimax_fuel_bounds (computerMarker playerMarker : string) (fuel : nat) :
  computerMarker <> "" -> playerMarker <> "" ->
  forall (board : Board) (depth : Z) (isMaximizing : bool) (z : Z),
    (length board <= 9)%nat ->
    0 <= depth ->
    depth + Z.of_nat (AI.emptyCount board) <= 10 ->
    AI.minimax_fuel fuel board depth isMaximizing computerMarker playerMarker
    = Some (Num z) ->
    -10 + depth <= z <= 10 - depth.
Proof.
  intros Hc Hp.
  induction fuel as [|fuel IH]; intros board depth isMaximizing z Hlen Hd He;
    [discriminate|].
  cbn [AI.minimax_fuel]. unfold AI.evaluate.
  destruct (AI.checkWinner board computerMarker).
  { cbn. intros [= <-]. lia. }
  destruct (AI.checkWinner board playerMarker).
  { cbn. intros [= <-]. lia. }
  cbn [Z.eqb Pos.eqb].
  destruct (AI.isBoardFull board).
  { intros [= <-]. lia. }
  assert (Hchild : forall k m s (b : bool),
            m <> "" -> cellIs board k "" = true ->
            AI.minimax_fuel fuel (<[k := m]> board) (depth + 1) b
                            computerMarker playerMarker = Some s ->
            exists zk, s = Num zk /\ -10 + depth <= zk <= 10 - depth).
  { intros k m s b Hm0 Hk Hs. apply cellIs_true in Hk.
    destruct (minimax_fuel_num _ _ _ _ _ _ _ (or_introl Hc)
                ltac:(rewrite length_insert; exact Hlen) Hs) as [zk ->].
    exists zk. split; [reflexivity|].
    pose proof (emptyCount_insert board k m Hk Hm0) as Hcount.
    assert (-10 + (depth + 1) <= zk <= 10 - (depth + 1)); [|lia].
    apply (IH (<[k := m]> board) (depth + 1) b zk); trivial.
    - rewrite length_insert. exact Hlen.
    - lia.
    - lia. }
  set (inRange := fun (init : Score) (_ : nat) (s : Score) =>
                    s = init \/
                    exists z', s = Num z' /\ -10 + depth <= z' <= 10 - depth).
  destruct isMaximizing; intros Hloop.
  - assert (Hinv : inRange NegInfinity 9%nat (Num z)).
    { refine (for9_invariant _ (inRange NegInfinity) _ _ _ _ Hloop).
      - left. reflexivity.
      - intros k a a' Hk Ha. cbn beta.
        destruct (cellIs board k "") eqn:Hck; [|intros [= <-]; exact Ha].
        destruct (AI.minimax_fuel fuel _ _ _ _ _) as [s|] eqn:Es;
          [|discriminate].
        intros [= <-].
        destruct (Hchild k _ s false Hc Hck Es) as (zk & -> & Hzk).
        right. destruct Ha as [-> | (z' & -> & Hz')].
        + exists zk. auto.
        + destruct (score_max_pick zk z') as [[-> _] | [-> _]]; eauto. }
    destruct Hinv as [Hinf | (z' & [= <-] & Hz')]; [discriminate | exact Hz'].
  - assert (Hinv : inRange PosInfinity 9%nat (Num z)).
    { refine (for9_invariant _ (inRange PosInfinity) _ _ _ _ Hloop).
      - left. reflexivity.
      - intros k a a' Hk Ha. cbn beta.
        destruct (cellIs board k "") eqn:Hck; [|intros [= <-]; exact Ha].
        destruct (AI.minimax_fuel fuel _ _ _ _ _) as [s|] eqn:Es;
          [|discriminate].
        intros [= <-].
        destruct (Hchild k _ s true Hp Hck Es) as (zk & -> & Hzk).
        right. destruct Ha as [-> | (z' & -> & Hz')].
        + exists zk. auto.
        + destruct (score_min_pick zk z') as [[-> _] | [-> _]]; eauto. }
    destruct Hinv as [Hinf | (z' & [= <-] & Hz')]; [discriminate | exact Hz'].
Qed.

(** X16. Range of the scores.  With markers that are not the empty
    string, on a board of at most nine cells, a call of [minimax] at a
    depth of at least 0 that together with the number of empty cells
    does not exceed 10 returns an integer between [-10 + depth] and
    [10 - depth]: the depth only ever makes a win smaller and a loss
    less severe. *)
Theorem minimax_range (board : Board) (depth : Z) (isMaximizing : bool)
        (computerMarker playerMarker : string) :
  computerMarker <> "" -> playerMarker <> "" ->
  (length board <= 9)%nat ->
  0 <= depth ->
  depth + Z.of_nat (countMark "" board) <= 10 ->
  exists z,
    AI.minimax board depth isMaximizing computerMarker playerMarker
    = Returned (Num z) /\
    -10 + depth <= z <= 10 - depth.
Proof.
  intros Hc Hp Hlen Hd He.
  destruct (minimax_returns board depth isMaximizing computerMarker playerMarker
              (or_introl Hc) Hlen) as (z & Hw & Hall).
  exists z. split; [exact Hw|].
  apply (minimax_fuel_bounds computerMarker playerMarker (AI.enough board)
           Hc Hp board depth isMaximizing z); trivial.
  apply Hall. lia.
Qed.

Lemma minimax_range_witness :
  exists z,
    AI.minimax ["X"; "O"; "X"; "O"; ""; ""; ""; ""; ""] 1 false "O" "X"
    = Returned (Num z) /\
    -10 + 1 <= z <= 10 - 1.
Proof.
  apply (minimax_range ["X"; "O"; "X"; "O"; ""; ""; ""; ""; ""] 1 false "O" "X");
    try discriminate; cbn; lia.
Defined.

(** ** Starting again *)

(** X17. A new game forgets the old one.  Whatever game was played
    since the script was loaded, [initialize] leaves exactly the state
    it leaves on the freshly loaded script: empty board, player 1 to
    move, no winner, nothing of the previous players or mode. *)
Theorem initialize_restarts (name1 name2 name1' name2' : string)
        (isVsComputer isVsComputer' : bool)
        (st : GameController.GameState) (indices : list Z) :
  successfulMoves indices
    (GameController.initialize name1 name2 isVsComputer GameController.loaded)
  = Some st ->
  GameController.initialize name1' name2' isVsComputer' st
  = GameController.initialize name1' name2' isVsComputer' GameController.loaded.
Proof.
  intros Hrun.
  assert (Hlen : (length (GameController.board GameController.loaded) <= 9)%nat)
    by (cbn; lia).
  pose proof (afterMoves_run name1 name2 isVsComputer GameController.loaded
                st indices Hlen Hrun) as Hinv.
  destruct (successfulMoves_mode indices _ _ Hrun) as [_ Hcm].
  assert (Hcm' : GameController.computerMarker st = "O")
    by (rewrite Hcm; destruct isVsComputer; reflexivity).
  unfold GameController.initialize.
  rewrite (reset_nine (GameController.board st))
    by (rewrite (am_length _ _ Hinv); lia).
  rewrite Hcm'. reflexivity.
Qed.

Lemma initialize_restarts_witness :
  exists st,
    successfulMoves [0; 3; 1; 4; 2]
      (GameController.initialize "Ann" "Bob" false GameController.loaded)
    = Some st /\
    GameController.initialize "Cy" "" true st
    = GameController.initialize "Cy" "" true GameController.loaded.
Proof.
  destruct (successfulMoves [0; 3; 1; 4; 2]
              (GameController.initialize "Ann" "Bob" false GameController.loaded))
    as [st|] eqn:Hrun; [|vm_compute in Hrun; discriminate Hrun].
  exists st. split; [reflexivity|].
  apply (initialize_restarts "Ann" "Bob" "Cy" "" false true st
           [0; 3; 1; 4; 2] Hrun).
Defined.

(** ** Failure results in a game *)

Section Results.
Import GameController.

Lemma successfulMoves_ready (indices : list Z) :
  forall st st',
    ready st -> successfulMoves indices st = Some st' -> ready st'.
Proof.
  induction indices as [|index rest IH]; intros st st' Hready Hrun.
  - cbn in Hrun. injection Hrun as <-. exact Hready.
  - cbn [successfulMoves] in Hrun.
    destruct (makeMove index st) as [[st1 r]|e] eqn:E; [|discriminate].
    destruct (Result.success r) eqn:Hs; [|discriminate].
    destruct (makeMove_success_turn _ _ _ _ Hready E Hs) as (_ & Hready1 & _).
    exact (IH st1 st' Hready1 Hrun).
Qed.

Lemma ready_isComputerTurn (st : GameState) :
  ready st -> exists turn, isComputerTurn st = Returned turn.
Proof.
  intros Hready. destruct (ready_markerOf st Hready) as [m Hm].
  unfold isComputerTurn. rewrite Hm. destruct (vsComputer st); eauto.
Qed.

Lemma makeComputerMove_idle (st : GameState) (turn : bool) :
  isComputerTurn st = Returned turn ->
  turn = false \/ gameOver st = true ->
  makeComputerMove st = Returned (st, Result.mk false None None None).
Proof.
  intros Hturn H. unfold makeComputerMove. rewrite Hturn.
  cbn [mbind outcome_bind].
  destruct H as [-> | ->]; [|rewrite orb_true_r]; reflexivity.
Qed.

Lemma makeMove_returns (index : Z) (st : GameState) :
  ready st ->
  gameOver st = false ->
  Gameboard.getCell index (board st) = Gameboard.Cell "" ->
  exists st' r, makeMove index st = Returned (st', r) /\
                Result.success r = true.
Proof.
  intros Hready Hover Hcell.
  destruct (ready_markerOf st Hready) as [m Hm].
  rewrite (makeMove_step index st m Hover Hcell Hm).
  destruct (accepted_mode st (<[Z.to_nat index := m]> (board st)) m)
    as (_ & _ & Hs & _).
  destruct (accepted st (<[Z.to_nat index := m]> (board st)) m) as [st' r].
  exists st', r. split; [reflexivity | exact Hs].
Qed.

Lemma makeComputerMove_returns (name1 name2 : string) (isVsComputer : bool)
      (st0 st : GameState) (indices : list Z) :
  (length (board st0) <= 9)%nat ->
  successfulMoves indices (initialize name1 name2 isVsComputer st0) = Some st ->
  isComputerTurn st = Returned true ->
  gameOver st = false ->
  exists st' r, makeComputerMove st = Returned (st', r) /\
                Result.success r = true.
Proof.
  intros Hlen Hrun Hturn Hover.
  destruct isVsComputer.
  - pose proof (computerGame_run name1 name2 st0 st indices Hlen Hrun) as Hgame.
    destruct (Nat.even (length indices)) eqn:Hk.
    + destruct (human_turn _ st Hgame Hover Hk) as [E _]. congruence.
    + destruct (computer_turn _ st Hgame Hover Hk)
        as (best & st' & r & _ & _ & _ & Hmove & _ & Hs & _).
      eauto.
  - destruct (successfulMoves_mode indices _ _ Hrun) as [Hvs _]. cbn in Hvs.
    unfold isComputerTurn in Hturn. rewrite Hvs in Hturn. discriminate.
Qed.
End Results.

(** C9, as the code has it.  In a game set up by [initialize], after any
    run of successful moves, every call of [makeMove] and of
    [makeComputerMove] returns a result value.  [makeMove] fails exactly
    when the game is over or the cell is not empty: it then leaves the
    state unchanged and the result has [success = false] and the message
    ['Game is over!'], respectively ['Cell is already taken!'].
    [makeComputerMove] fails exactly when it is not the computer's turn
    or the game is over: it then leaves the state unchanged and the
    result has [success = false] and no reason at all. *)
Theorem failure_results (name1 name2 : string) (isVsComputer : bool)
        (st0 st : GameController.GameState) (indices : list Z) :
  (length (GameController.board st0) <= 9)%nat ->
  successfulMoves indices
    (GameController.initialize name1 name2 isVsComputer st0) = Some st ->
  (forall index,
     exists st' r,
       GameController.makeMove index st = Returned (st', r) /\
       (Result.success r = false <->
        GameController.gameOver st = true \/
        Gameboard.getCell index (GameController.board st)
        <> Gameboard.Cell "") /\
       (GameController.gameOver st = true ->
        st' = st /\ r = Result.mk false (Some "Game is over!") None None) /\
       (GameController.gameOver st = false ->
        Gameboard.getCell index (GameController.board st)
        <> Gameboard.Cell "" ->
        st' = st /\
        r = Result.mk false (Some "Cell is already taken!") None None)) /\
  (exists turn st' r,
     GameController.isComputerTurn st = Returned turn /\
     GameController.makeComputerMove st = Returned (st', r) /\
     (Result.success r = false <->
      turn = false \/ GameController.gameOver st = true) /\
     (Result.success r = false ->
      st' = st /\ r = Result.mk false None None None)).
Proof.
  intros Hlen Hrun.
  assert (Hready : ready st).
  { apply (successfulMoves_ready indices _ st
             (initialize_ready name1 name2 isVsComputer st0) Hrun). }
  split.
  - intros index.
    destruct (GameController.gameOver st) eqn:Hover.
    { exists st, (Result.mk false (Some "Game is over!") None None).
      split; [apply makeMove_over; exact Hover|].
      split; [split; auto|]. split; [auto | discriminate]. }
    destruct (GameController.notEmptyString
                (Gameboard.getCell index (GameController.board st))) eqn:Hcell.
    { apply notEmptyString_true in Hcell.
      exists st, (Result.mk false (Some "Cell is already taken!") None None).
      split; [apply makeMove_taken; assumption|].
      split; [split; auto|]. split; [discriminate | auto]. }
    apply notEmptyString_false in Hcell.
    destruct (makeMove_returns index st Hready Hover Hcell)
      as (st' & r & Hmove & Hs).
    exists st', r. split; [exact Hmove|]. rewrite Hs.
    split; [split; [discriminate | intros [H | H]; congruence]|].
    split; [discriminate | congruence].
  - destruct (ready_isComputerTurn st Hready) as [turn Hturn].
    destruct turn; [destruct (GameController.gameOver st) eqn:Hover|].
    + exists true, st, (Result.mk false None None None).
      split; [exact Hturn|].
      split; [apply (makeComputerMove_idle st true Hturn); auto|].
      split; [split; auto | auto].
    + destruct (makeComputerMove_returns name1 name2 isVsComputer st0 st
                  indices Hlen Hrun Hturn Hover) as (st' & r & Hmove & Hs).
      exists true, st', r. split; [exact Hturn|]. split; [exact Hmove|].
      rewrite Hs.
      split; [split; [discriminate | intros [H | H]; discriminate]|].
      discriminate.
    + exists false, st, (Result.mk false None None None).
      split; [exact Hturn|].
      split; [apply (makeComputerMove_idle st false Hturn); auto|].
      split; [split; auto | auto].
Qed.

(** The human is to move: a click outside the board is rejected with the
    occupied-cell message and the computer, asked to move, declines with
    no reason. *)
Lemma failure_results_witness :
  GameController.makeMove 9 humanToMove
  = Returned (humanToMove,
              Result.mk false (Some "Cell is already taken!") None None) /\
  GameController.makeComputerMove humanToMove
  = Returned (humanToMove, Result.mk false None None None).
Proof.
  destruct (failure_results "Ann" "" true GameController.loaded humanToMove []
              ltac:(cbn; lia) eq_refl)
    as [Hmove (turn & st' & r & Hturn & Hcomp & Hiff & Hfail)].
  split.
  - destruct (Hmove 9) as (st1 & r1 & E & _ & _ & Htaken).
    destruct (Htaken eq_refl ltac:(vm_compute; discriminate)) as [-> ->].
    exact E.
  - assert (Hf : Result.success r = false).
    { apply Hiff. left. vm_compute in Hturn. congruence. }
    destruct (Hfail Hf) as [-> ->]. exact Hcomp.
Defined.

(** ** Before the first game *)

(** X18. Before [initialize] there is no current player: on a state
    whose [currentPlayer] is [null] and that is not over, [makeMove] on
    an empty cell does not return a result, it throws a [TypeError]
    (reading [marker] of [null]).  This is the state of the freshly
    loaded script, on which every index of [0..8] throws. *)
Theorem makeMove_before_initialize (index : Z) (st : GameController.GameState) :
  GameController.currentPlayer st = None ->
  GameController.gameOver st = false ->
  Gameboard.getCell index (GameController.board st) = Gameboard.Cell "" ->
  GameController.makeMove index st = Threw TypeError.
Proof.
  intros Hcur Hover Hcell. unfold GameController.makeMove.
  rewrite Hover, Hcell, Hcur. reflexivity.
Qed.

Lemma makeMove_before_initialize_witness :
  GameController.makeMove 0 GameController.loaded = Threw TypeError.
Proof.
  apply (makeMove_before_initialize 0 GameController.loaded); reflexivity.
Defined.
